(** * Movie-ticket booking application: a shallow embedding of [app.py]

    The relational store is a record of five tables, each a list of rows
    in insertion order.  Request handlers are functions from the store
    and the client's login session to a new store, a new session, the
    flashed messages and a response.  Pending changes live in a unit of
    work ([Session]) that reaches the store only through [commit]. *)

From Stdlib Require Import List String Ascii Bool Arith ZArith Lia.
From Stdlib Require Import Permutation Sorted DecimalString.
From Stdlib Require DecimalNat.
From Stdlib Require Import Floats.PrimFloat Numbers.Cyclic.Int63.Uint63.
Import ListNotations.

Open Scope string_scope.
Open Scope nat_scope.

(** ** Text helpers

    Form fields and columns are strings of code points below 256; on
    these [str.strip], [str.lower] and [str.isspace] are the functions
    below, and results stay in the same range. *)
Module Text.

(** [str.isspace] on one character: TAB..CR, FS..US, SPACE, NEL, NBSP. *)
Definition is_space (c : ascii) : bool :=
  let n := nat_of_ascii c in
  ((9 <=? n) && (n <=? 13)) || ((28 <=? n) && (n <=? 32))
  || (n =? 133) || (n =? 160).

(** [str.lower] on one character: A..Z and the Latin-1 capitals
    (0xC0..0xDE without the multiplication sign 0xD7) move up by 32. *)
Definition lower_char (c : ascii) : ascii :=
  let n := nat_of_ascii c in
  if ((65 <=? n) && (n <=? 90))
     || ((192 <=? n) && (n <=? 222) && negb (n =? 215))
  then ascii_of_nat (n + 32) else c.

Fixpoint lower (s : string) : string :=
  match s with
  | EmptyString => EmptyString
  | String c r => String (lower_char c) (lower r)
  end.

Fixpoint lstrip (s : string) : string :=
  match s with
  | EmptyString => EmptyString
  | String c r => if is_space c then lstrip r else s
  end.

(** Drops trailing whitespace: a character is kept when it is not
    whitespace or something is kept after it. *)
Fixpoint rstrip (s : string) : string :=
  match s with
  | EmptyString => EmptyString
  | String c r =>
      match rstrip r with
      | EmptyString => if is_space c then EmptyString else String c EmptyString
      | r' => String c r'
      end
  end.

Definition strip (s : string) : string := rstrip (lstrip s).

(** [sep.join(items)] *)
Fixpoint join (sep : string) (items : list string) : string :=
  match items with
  | [] => ""
  | [x] => x
  | x :: rest => x ++ sep ++ join sep rest
  end.

(** [str(n)] for a non-negative integer. *)
Definition str_of_nat (n : nat) : string :=
  NilEmpty.string_of_uint (Nat.to_uint n).

(** [chr(n)] for [n < 256]. *)
Definition chr (n : nat) : string := String (ascii_of_nat n) "".

(** [ord('A')] *)
Definition ord_A : nat := 65.

(** [s[0]]: raises [IndexError] on the empty string. *)
Definition first_char (s : string) : option string :=
  match s with
  | EmptyString => None
  | String c _ => Some (String c "")
  end.

(** [not s] for a string. *)
Definition is_empty (s : string) : bool :=
  match s with EmptyString => true | _ => false end.

End Text.

(** ** Time and money

    A naive [datetime] is the number of microseconds since the epoch;
    [timedelta(hours=h)] is [h] hours in microseconds.  A [Float] column
    is a binary64 float. *)
Module Clock.

Definition datetime := Z.

Definition hour : Z := 3600000000.

Definition timedelta_hours (h : Z) : Z := h * hour.

(** [t.replace(minute=0, second=0, microsecond=0)] *)
Definition replace_to_hour (t : datetime) : datetime := (t - t mod hour)%Z.

End Clock.

(** [float(n)] for a small non-negative integer. *)
Definition float_of_nat (n : nat) : float :=
  PrimFloat.of_uint63 (Uint63.of_Z (Z.of_nat n)).

(** ** Data model *)

Record User := mkUser {
  user_id : nat;
  user_name : string;
  user_email : string;
  password_hash : string;
  is_admin : bool
}.

Record Movie := mkMovie {
  movie_id : nat;
  title : string;
  description : string;
  duration_minutes : nat;
  poster_url : option string
}.

Record Showtime := mkShowtime {
  showtime_id : nat;
  st_movie_id : nat;
  start_time : Clock.datetime;
  ticket_price : float
}.

Record Seat := mkSeat {
  seat_id : nat;
  seat_showtime_id : nat;
  seat_label : string;
  is_booked : bool
}.

Record Booking := mkBooking {
  booking_id : nat;
  bk_user_id : nat;
  bk_showtime_id : nat;
  seat_labels : string;
  total_price : float;
  booked_at : Clock.datetime
}.

(** The store: one list of rows per table, oldest row first. *)
Record DB := mkDB {
  users : list User;
  movies : list Movie;
  showtimes : list Showtime;
  seats : list Seat;
  bookings : list Booking
}.

(** [db.drop_all(); db.create_all()] leaves every table empty. *)
Definition empty_db : DB := mkDB [] [] [] [] [].

(** An integer primary key is one more than the largest key in use. *)
Definition next_id (ids : list nat) : nat := S (fold_right Nat.max 0 ids).

(** ** The unit of work

    [committed] is what the store holds; [working] is what the running
    transaction sees.  Only [commit] copies the one onto the other, so a
    failure before it leaves [committed] as it was. *)
Record Session := mkSession {
  committed : DB;
  working : DB
}.

Definition begin (db : DB) : Session := mkSession db db.

Definition commit (s : Session) : Session := mkSession (working s) (working s).

Definition on_working (f : DB -> DB) (s : Session) : Session :=
  mkSession (committed s) (f (working s)).

(** *** Inserts: [db.session.add(row)] followed by a flush *)

Definition insert_user (name email hash : string) (admin : bool) (d : DB) : DB :=
  mkDB ((users d ++ [mkUser (next_id (map user_id (users d))) name email hash admin])%list)
       (movies d) (showtimes d) (seats d) (bookings d).

Definition insert_movie (t descr : string) (dur : nat) (poster : option string)
    (d : DB) : DB :=
  mkDB (users d)
       (movies d ++ [mkMovie (next_id (map movie_id (movies d))) t descr dur poster])%list
       (showtimes d) (seats d) (bookings d).

Definition insert_showtime (mid : nat) (start : Clock.datetime) (price : float)
    (d : DB) : DB :=
  mkDB (users d) (movies d)
       (showtimes d ++ [mkShowtime (next_id (map showtime_id (showtimes d))) mid start price])%list
       (seats d) (bookings d).

(** [is_booked] takes its column default, [False]. *)
Definition insert_seat (sid : nat) (label : string) (d : DB) : DB :=
  mkDB (users d) (movies d) (showtimes d)
       (seats d ++ [mkSeat (next_id (map seat_id (seats d))) sid label false])%list
       (bookings d).

Definition insert_booking (uid sid : nat) (labels : string) (total : float)
    (now : Clock.datetime) (d : DB) : DB :=
  mkDB (users d) (movies d) (showtimes d) (seats d)
       (bookings d ++ [mkBooking (next_id (map booking_id (bookings d))) uid sid labels total now])%list.

(** [seat.is_booked = True] on the row whose key is [k]. *)
Definition set_booked (k : nat) (d : DB) : DB :=
  mkDB (users d) (movies d) (showtimes d)
       (map (fun s => if seat_id s =? k
                      then mkSeat (seat_id s) (seat_showtime_id s) (seat_label s) true
                      else s) (seats d))
       (bookings d).

(** *** Queries *)

(** [Model.query.get(k)] *)
Definition get_user (k : nat) (d : DB) : option User :=
  find (fun u => user_id u =? k) (users d).

Definition get_movie (k : nat) (d : DB) : option Movie :=
  find (fun m => movie_id m =? k) (movies d).

Definition get_showtime (k : nat) (d : DB) : option Showtime :=
  find (fun t => showtime_id t =? k) (showtimes d).

(** [User.query.filter_by(email=e).first()] *)
Definition user_by_email (e : string) (d : DB) : option User :=
  find (fun u => String.eqb (user_email u) e) (users d).

(** [x in selected] *)
Definition label_in (x : string) (selected : list string) : bool :=
  existsb (String.eqb x) selected.

(** [Seat.query.filter(Seat.showtime_id == sid, Seat.seat_label.in_(selected)).all()] *)
Definition seats_matching (sid : nat) (selected : list string) (d : DB) : list Seat :=
  filter (fun s => (seat_showtime_id s =? sid) && label_in (seat_label s) selected)
         (seats d).

(** [Seat.query.filter_by(showtime_id=sid)] *)
Definition seats_of_showtime (sid : nat) (d : DB) : list Seat :=
  filter (fun s => seat_showtime_id s =? sid) (seats d).


(** [query.order_by(key)]: a stable insertion sort; [le a b] says that
    [a] may come before [b]. *)
Section OrderBy.

Context {A : Type} (le : A -> A -> bool).

Fixpoint insert_sorted (x : A) (l : list A) : list A :=
  match l with
  | [] => [x]
  | y :: r => if le x y then x :: l else y :: insert_sorted x r
  end.

Fixpoint order_by (l : list A) : list A :=
  match l with
  | [] => []
  | x :: r => insert_sorted x (order_by r)
  end.

End OrderBy.

(** [Seat.seat_label.asc()] and [Booking.booked_at.desc()] *)
Definition label_asc (a b : Seat) : bool := String.leb (seat_label a) (seat_label b).

Definition booked_at_desc (a b : Booking) : bool := (booked_at b <=? booked_at a)%Z.

(** ** The seat map of [showtime_detail]

    [rows] is a dict from a row letter to a list of seats; a dict keeps
    its keys in the order of their first insertion. *)
Definition seat_rows := list (string * list Seat).

(** [rows.setdefault(k, []).append(seat)] *)
Fixpoint setdefault_append (k : string) (seat : Seat) (rows : seat_rows) : seat_rows :=
  match rows with
  | [] => [(k, [seat])]
  | (k', l) :: rest =>
      if String.eqb k' k then (k', (l ++ [seat])%list) :: rest
      else (k', l) :: setdefault_append k seat rest
  end.

(** The loop over the fetched seats; [None] when a label is empty and
    [seat.seat_label[0]] raises. *)
Fixpoint organize_rows (fetched : list Seat) (rows : seat_rows) : option seat_rows :=
  match fetched with
  | [] => Some rows
  | seat :: rest =>
      match Text.first_char (seat_label seat) with
      | None => None
      | Some row_label => organize_rows rest (setdefault_append row_label seat rows)
      end
  end.

(** [rows.get(k, [])] *)
Fixpoint row_of (k : string) (rows : seat_rows) : list Seat :=
  match rows with
  | [] => []
  | (k', l) :: rest => if String.eqb k' k then l else row_of k rest
  end.

(** ** Responses *)

Inductive endpoint :=
| ep_home
| ep_login
| ep_my_bookings
| ep_showtime_detail (showtime : nat)
| ep_url (target : string).

Inductive page :=
| index_html (ms : list Movie)
| movie_detail_html (m : Movie)
| showtime_html (t : Showtime) (rows : seat_rows)
| bookings_html (bs : list Booking)
| login_html
| register_html (prefill : option (string * string)).

Inductive response :=
| Render (p : page)
| Redirect (e : endpoint)
| NotFound
| ServerError.

(** What a request leaves behind: the store, the id held by the login
    session, the flashed (message, category) pairs and the response. *)
Record Result := mkResult {
  res_db : DB;
  res_login : option nat;
  res_flashes : list (string * string);
  res_response : response
}.

(** [current_user]: the session's id looked up by [load_user]. *)
Definition current_user (login : option nat) (d : DB) : option User :=
  match login with
  | Some k => get_user k d
  | None => None
  end.

(** [login_manager.unauthorized()] with [login_view = 'login']. *)
Definition unauthorized (d : DB) (login : option nat) : Result :=
  mkResult d login [("Please log in to access this page.", "message")] (Redirect ep_login).

(** ** Seeding *)

Definition demo_movies : list (string * string * nat * option string) :=
  [ ("Interstellar",
     "A team of explorers travel through a wormhole in space in an attempt to ensure humanity's survival.",
     169, Some "https://m.media-amazon.com/images/I/91kFYg4fX3L._AC_SL1500_.jpg");
    ("Inception",
     "A thief who steals corporate secrets through dream-sharing technology is given an inverse task of planting an idea.",
     148, Some "https://m.media-amazon.com/images/I/51s+JvFsHkL._AC_.jpg");
    ("The Dark Knight",
     "Batman faces the Joker, a criminal mastermind who plunges Gotham into anarchy.",
     152, Some "https://m.media-amazon.com/images/I/51K8ouYrHeL._AC_.jpg") ].

(** [f"{row_label}{c}"] with [row_label = chr(ord('A') + r)] *)
Definition grid_label (r c : nat) : string :=
  Text.chr (Text.ord_A + r) ++ Text.str_of_nat c.

(** The inner loop, [for c in range(1, cols + 1)]. *)
Definition create_seat_row (sid r cols : nat) (d : DB) : DB :=
  fold_left (fun d c => insert_seat sid (grid_label r c) d) (seq 1 cols) d.

(** [create_seats_for_showtime(showtime, rows, cols)] *)
Definition create_seats_for_showtime (sid rows cols : nat) (d : DB) : DB :=
  fold_left (fun d r => create_seat_row sid r cols d) (seq 0 rows) d.

(** [10.0 + 2.0 * i] *)
Definition seed_price (i : nat) : float :=
  PrimFloat.add 10%float (PrimFloat.mul 2%float (float_of_nat i)).

(** One turn of [for i in range(3)]: insert the showtime, flush to learn
    its id, create its seats with the default 5 by 8 grid. *)
Definition seed_showtime (mid : nat) (base_time : Clock.datetime) (d : DB) (i : nat) : DB :=
  let sid := next_id (map showtime_id (showtimes d)) in
  let d1 := insert_showtime mid (base_time + Clock.timedelta_hours (3 * Z.of_nat i))%Z
                            (seed_price i) d in
  create_seats_for_showtime sid 5 8 d1.

(** [base_time] for a movie, from the reading [now] of [datetime.utcnow()]. *)
Definition seed_base_time (now : Clock.datetime) : Clock.datetime :=
  (Clock.replace_to_hour now + Clock.timedelta_hours 2)%Z.

(** One turn of [for movie_data in demo_movies]. *)
Definition seed_movie (now : Clock.datetime) (data : string * string * nat * option string)
    (d : DB) : DB :=
  let '(t, descr, dur, poster) := data in
  let mid := next_id (map movie_id (movies d)) in
  let d1 := insert_movie t descr dur poster d in
  fold_left (seed_showtime mid (seed_base_time now)) (seq 0 3) d1.

(** The loop over the movies; [clock k] is what [datetime.utcnow()]
    returns in turn [k]. *)
Fixpoint seed_movies (clock : nat -> Clock.datetime) (k : nat)
    (ms : list (string * string * nat * option string)) (d : DB) : DB :=
  match ms with
  | [] => d
  | data :: rest => seed_movies clock (S k) rest (seed_movie (clock k) data d)
  end.

(** ** Handlers

    [werkzeug.security] is outside the repository: its two functions are
    parameters.  [generate_password_hash] draws a random salt, here its
    first argument. *)
Section App.

Variable generate_password_hash : string -> string -> string.
Variable check_password_hash : string -> string -> bool.

(** The demo-user step of [seed_demo_data]. *)
Definition seed_demo_user (salt : string) (d : DB) : DB :=
  match user_by_email "demo@example.com" d with
  | Some _ => d
  | None => insert_user "Demo User" "demo@example.com"
                        (generate_password_hash salt "password") true d
  end.

(** [seed_demo_data()] *)
Definition seed_demo_data (clock : nat -> Clock.datetime) (salt : string) (d : DB) : DB :=
  if 0 <? List.length (movies d) then d
  else
    let s0 := begin d in
    let s1 := on_working (seed_movies clock 0 demo_movies) s0 in
    let s2 := on_working (seed_demo_user salt) s1 in
    committed (commit s2).

(** The [init-db] command: [drop_all], [create_all], then seeding. *)
Definition init_db_command (clock : nat -> Clock.datetime) (salt : string) (d : DB) : DB :=
  seed_demo_data clock salt empty_db.

(** [home()] *)
Definition home (d : DB) (login : option nat) : Result :=
  mkResult d login [] (Render (index_html (movies d))).

(** [movie_detail(movie_id)] *)
Definition movie_detail (k : nat) (d : DB) (login : option nat) : Result :=
  match get_movie k d with
  | None => mkResult d login [] NotFound
  | Some m => mkResult d login [] (Render (movie_detail_html m))
  end.

(** The query of [showtime_detail]. *)
Definition fetch_seat_map (sid : nat) (d : DB) : list Seat :=
  order_by label_asc (seats_of_showtime sid d).

(** [showtime_detail(showtime_id)] *)
Definition showtime_detail (k : nat) (d : DB) (login : option nat) : Result :=
  match get_showtime k d with
  | None => mkResult d login [] NotFound
  | Some t =>
      match organize_rows (fetch_seat_map (showtime_id t) d) [] with
      | None => mkResult d login [] ServerError
      | Some rows => mkResult d login [] (Render (showtime_html t rows))
      end
  end.

(** The statements of [book_tickets] after the availability check, one
    step each: the assignments of the loop, the [add], the [commit]. *)
Definition book_steps (matched : list Seat) (uid sid : nat) (labels : string)
    (total : float) (now : Clock.datetime) : list (Session -> Session) :=
  (map (fun s => on_working (set_booked (seat_id s))) matched
   ++ [on_working (insert_booking uid sid labels total now); commit])%list.

Definition run_steps (steps : list (Session -> Session)) (s : Session) : Session :=
  fold_left (fun s f => f s) steps s.

Definition seats_unavailable : string * string :=
  ("One or more selected seats are no longer available. Please try again.", "danger").

(** [book_tickets(showtime_id)]; [now] is the default of [booked_at]. *)
Definition book_tickets (now : Clock.datetime) (k : nat) (selected_seats : list string)
    (d : DB) (login : option nat) : Result :=
  match current_user login d with
  | None => unauthorized d login
  | Some u =>
      match get_showtime k d with
      | None => mkResult d login [] NotFound
      | Some t =>
          match selected_seats with
          | [] => mkResult d login [("Please select at least one seat.", "warning")]
                           (Redirect (ep_showtime_detail (showtime_id t)))
          | _ =>
              let matched := seats_matching (showtime_id t) selected_seats d in
              if negb (List.length matched =? List.length selected_seats) || existsb is_booked matched
              then mkResult d login [seats_unavailable]
                            (Redirect (ep_showtime_detail (showtime_id t)))
              else
                let total := PrimFloat.mul (ticket_price t)
                                           (float_of_nat (List.length selected_seats)) in
                let s := run_steps (book_steps matched (user_id u) (showtime_id t)
                                               (Text.join "," selected_seats) total now)
                                   (begin d) in
                mkResult (committed s) login
                         [("Booking confirmed for seats: " ++ Text.join ", " selected_seats,
                           "success")]
                         (Redirect ep_my_bookings)
          end
      end
  end.

(** [my_bookings()] *)
Definition my_bookings (d : DB) (login : option nat) : Result :=
  match current_user login d with
  | None => unauthorized d login
  | Some u =>
      mkResult d login []
        (Render (bookings_html
           (order_by booked_at_desc
              (filter (fun b => bk_user_id b =? user_id u) (bookings d)))))
  end.

(** [.strip().lower()] on a submitted email. *)
Definition normalize_email (e : string) : string := Text.lower (Text.strip e).

Definition invalid_credentials (d : DB) (login : option nat) : Result :=
  mkResult d login [("Invalid email or password.", "danger")] (Render login_html).

(** [login()]: a GET renders the form. *)
Definition login_get (d : DB) (login : option nat) : Result :=
  mkResult d login [] (Render login_html).

(** [login()] on a POST; [next] is the query parameter of that name. *)
Definition login_post (email password : string) (next : option string)
    (d : DB) (login : option nat) : Result :=
  let email := normalize_email email in
  match user_by_email email d with
  | Some u =>
      if check_password_hash (password_hash u) password
      then mkResult d (Some (user_id u)) [("Logged in successfully.", "success")]
             (Redirect match next with
                       | Some n => if Text.is_empty n then ep_home else ep_url n
                       | None => ep_home
                       end)
      else invalid_credentials d login
  | None => invalid_credentials d login
  end.

Definition register_get (d : DB) (login : option nat) : Result :=
  mkResult d login [] (Render (register_html None)).

(** [register()] on a POST; [salt] is the salt the hash function draws. *)
Definition register_post (name email password salt : string)
    (d : DB) (login : option nat) : Result :=
  let name := Text.strip name in
  let email := normalize_email email in
  if Text.is_empty name || Text.is_empty email || Text.is_empty password
  then mkResult d login [("All fields are required.", "warning")]
                (Render (register_html (Some (name, email))))
  else
    match user_by_email email d with
    | Some _ => mkResult d login [("Email already in use.", "warning")]
                         (Render (register_html (Some (name, email))))
    | None =>
        let s := commit (on_working
                   (insert_user name email (generate_password_hash salt password) false)
                   (begin d)) in
        mkResult (committed s) login
                 [("Registration successful. Please log in.", "success")]
                 (Redirect ep_login)
    end.

(** [logout()] *)
Definition logout (d : DB) (login : option nat) : Result :=
  match current_user login d with
  | None => unauthorized d login
  | Some _ => mkResult d None [("Logged out successfully.", "success")] (Redirect ep_home)
  end.

(** ** The operations of the system *)

Inductive operation :=
| OpHome
| OpMovieDetail (k : nat)
| OpShowtimeDetail (k : nat)
| OpBookTickets (now : Clock.datetime) (k : nat) (selected_seats : list string)
| OpMyBookings
| OpLoginGet
| OpLoginPost (email password : string) (next : option string)
| OpRegisterGet
| OpRegisterPost (name email password salt : string)
| OpLogout
| OpSeed (clock : nat -> Clock.datetime) (salt : string)
| OpInitDb (clock : nat -> Clock.datetime) (salt : string).

(** The store and the login session after an operation. *)
Definition run (op : operation) (d : DB) (login : option nat) : DB * option nat :=
  let of_result r := (res_db r, res_login r) in
  match op with
  | OpHome => of_result (home d login)
  | OpMovieDetail k => of_result (movie_detail k d login)
  | OpShowtimeDetail k => of_result (showtime_detail k d login)
  | OpBookTickets now k sel => of_result (book_tickets now k sel d login)
  | OpMyBookings => of_result (my_bookings d login)
  | OpLoginGet => of_result (login_get d login)
  | OpLoginPost e p n => of_result (login_post e p n d login)
  | OpRegisterGet => of_result (register_get d login)
  | OpRegisterPost n e p s => of_result (register_post n e p s d login)
  | OpLogout => of_result (logout d login)
  | OpSeed clock salt => (seed_demo_data clock salt d, login)
  | OpInitDb clock salt => (init_db_command clock salt d, login)
  end.

(** The stores the system reaches from fresh tables. *)
Inductive reachable : DB -> Prop :=
| reach_fresh : reachable empty_db
| reach_run op d login : reachable d -> reachable (fst (run op d login)).

End App.

(** ** Concrete data for the worked examples

    A stand-in for the hash functions: the stored string is the password
    followed by a dollar sign and the salt. *)
Module Demo.

Definition toy_hash (salt password : string) : string := password ++ "$" ++ salt.

Definition toy_check (hash password : string) : bool := String.prefix (password ++ "$") hash.

(** Seeding at half past one. *)
Definition half_past_one : Clock.datetime := 5400000000%Z.

Definition seeded : DB :=
  fst (run toy_hash toy_check (OpSeed (fun _ => half_past_one) "s") empty_db None).

(** The demo user books A1 and A2 of the first showtime. *)
Definition after_booking : DB :=
  fst (run toy_hash toy_check (OpBookTickets 77%Z 1 ["A1"; "A2"]) seeded (Some 1)).

End Demo.

(** The seat row [s] once [seat.is_booked = True] has run on it. *)
Definition mark_booked (s : Seat) : Seat :=
  mkSeat (seat_id s) (seat_showtime_id s) (seat_label s) true.

(** The request names seat [s] of showtime [sid]. *)
Definition names_seat (sid : nat) (selected : list string) (s : Seat) : bool :=
  (seat_showtime_id s =? sid) && label_in (seat_label s) selected.

(** The labels of the 5 by 8 grid, rows A to E crossed with columns 1 to 8. *)
Definition grid_labels : list string :=
  flat_map (fun r => map (fun c => r ++ c) ["1"; "2"; "3"; "4"; "5"; "6"; "7"; "8"])
           ["A"; "B"; "C"; "D"; "E"].

(** The store after all the steps of a booking. *)
Definition booked_db (matched : list Seat) (uid sid : nat) (labels : string)
    (total : float) (now : Clock.datetime) (d : DB) : DB :=
  mkDB (users d) (movies d) (showtimes d)
       (map (fun s => if existsb (fun m => seat_id s =? seat_id m) matched
                      then mark_booked s else s) (seats d))
       (bookings d ++ [mkBooking (next_id (map booking_id (bookings d))) uid sid labels total now]).

(** The availability check of [book_tickets]. *)
Definition unavailable (sid : nat) (selected : list string) (d : DB) : bool :=
  negb (List.length (seats_matching sid selected d) =? List.length selected)
  || existsb is_booked (seats_matching sid selected d).

(** Seat rows numbered from [base] on, one per label, all of showtime
    [sid] and unbooked: what a run of inserts adds to the seat table. *)
Fixpoint fresh_seats (base sid : nat) (labels : list string) : list Seat :=
  match labels with
  | [] => []
  | l :: rest => mkSeat base sid l false :: fresh_seats (S base) sid rest
  end.

(** The three showtimes of movie [mid], keys from [sid] on. *)
Definition showtimes_for (mid sid : nat) (base : Clock.datetime) : list Showtime :=
  map (fun i => mkShowtime (sid + i) mid (base + Clock.timedelta_hours (3 * Z.of_nat i))%Z
                           (seed_price i)) (seq 0 3).

(** The seats of three consecutive showtimes, seat keys from [b] on. *)
Definition seats_for (b sid : nat) : list Seat :=
  flat_map (fun i => fresh_seats (b + 40 * i) (sid + i) grid_labels) (seq 0 3).

(** The rows one seeding adds, from the first free keys on. *)
Definition seeded_movies (mid : nat) : list Movie :=
  map (fun '(k, (t, descr, dur, poster)) => mkMovie (mid + k) t descr dur poster)
      (combine (seq 0 3) demo_movies).

Definition seeded_showtimes (clock : nat -> Clock.datetime) (mid sid : nat) : list Showtime :=
  flat_map (fun k => showtimes_for (mid + k) (sid + 3 * k) (seed_base_time (clock k)))
           (seq 0 3).

Definition seeded_seats (b sid : nat) : list Seat :=
  flat_map (fun k => seats_for (b + 120 * k) (sid + 3 * k)) (seq 0 3).

(** [s.split(',')]: how the CSV column of a booking is read back. *)
Fixpoint split_csv (s : string) : list string :=
  match s with
  | EmptyString => [EmptyString]
  | String c r =>
      if Ascii.eqb c ","
      then EmptyString :: split_csv r
      else match split_csv r with
           | x :: xs => String c x :: xs
           | [] => [String c EmptyString]
           end
  end.

(** The label of [s] starts with the row letter [k]. *)
Definition in_row (k : string) (s : Seat) : bool :=
  match Text.first_char (seat_label s) with
  | Some k' => String.eqb k' k
  | None => false
  end.

(** What identifies a seat row, apart from its flag. *)
Definition seat_key (s : Seat) : nat * nat * string :=
  (seat_id s, seat_showtime_id s, seat_label s).

Definition demo_email : string := "demo@example.com".

(** Before the first seeding the catalog tables are empty. *)
Definition unseeded (d : DB) : Prop :=
  movies d = [] /\ showtimes d = [] /\ seats d = [] /\ bookings d = [].

(** After it they hold the demo rows, once each; only seat flags vary. *)
Definition seeded_catalog (d : DB) : Prop :=
  movies d = seeded_movies 1
  /\ (exists clock, showtimes d = seeded_showtimes clock 1 1)
  /\ map seat_key (seats d) = map seat_key (seeded_seats 1 1)
  /\ In demo_email (map user_email (users d)).

(** Integrity of the store: emails are stored normalized and are unique,
    the catalog is empty or holds the demo rows, and the labels recorded
    by a booking are distinct grid labels. *)
Record db_ok (d : DB) : Prop := mk_db_ok {
  ok_emails_normal :
    Forall (fun u => normalize_email (user_email u) = user_email u) (users d);
  ok_emails_unique : NoDup (map user_email (users d));
  ok_catalog : unseeded d \/ seeded_catalog d;
  ok_bookings :
    Forall (fun b => NoDup (split_csv (seat_labels b))
                     /\ incl (split_csv (seat_labels b)) grid_labels) (bookings d)
}.

(** No leading whitespace. *)
Definition lstripped (s : string) : Prop :=
  match s with
  | EmptyString => True
  | String c _ => Text.is_space c = false
  end.

(** The label holds no comma. *)
Fixpoint no_comma (s : string) : bool :=
  match s with
  | EmptyString => true
  | String c r => negb (Ascii.eqb c ",") && no_comma r
  end.

(** How one operation may change a seat row: the key, showtime and
    label stay, a set flag stays set, and a flag changes only under a
    booking, from unset to set. *)
Definition flag_step (booking : bool) (s s' : Seat) : Prop :=
  seat_key s' = seat_key s
  /\ (is_booked s = true -> is_booked s' = true)
  /\ (is_booked s' <> is_booked s ->
      booking = true /\ is_booked s = false /\ is_booked s' = true).

Definition is_booking (op : operation) : bool :=
  match op with
  | OpBookTickets _ _ _ => true
  | _ => false
  end.

(** One (showtime, label) pair per seat of the nine seeded showtimes. *)
Definition seeded_places : list (nat * string) :=
  flat_map (fun sid => map (pair sid) grid_labels) (seq 1 9).

(** The labels [create_seats_for_showtime] gives a grid of [rows] by [cols]. *)
Definition grid_labels_of (rows cols : nat) : list string :=
  flat_map (fun r => map (grid_label r) (seq 1 cols)) (seq 0 rows).

Definition is_register (op : operation) : bool :=
  match op with
  | OpRegisterPost _ _ _ _ => true
  | _ => false
  end.

Definition is_seed (op : operation) : bool :=
  match op with
  | OpSeed _ _ => true
  | _ => false
  end.

(** The labels a booking records. *)
Definition booking_labels (b : Booking) : list string := split_csv (seat_labels b).

(** Booking [b] names seat [s]: same showtime, and the label is recorded. *)
Definition booking_names (b : Booking) (s : Seat) : Prop :=
  bk_showtime_id b = seat_showtime_id s /\ In (seat_label s) (booking_labels b).

(** Two bookings have no seat in common. *)
Definition bookings_apart (b1 b2 : Booking) : Prop :=
  bk_showtime_id b1 = bk_showtime_id b2 ->
  forall l, In l (booking_labels b1) -> ~ In l (booking_labels b2).

(** The bookings and the seat flags tell the same story: keys of users
    and bookings are unique, a booking refers to a stored user and
    showtime and carries the price of its seats, a seat is booked exactly
    when a booking names it, and no two bookings share a seat. *)
Record ledger_ok (d : DB) : Prop := mk_ledger_ok {
  led_user_ids : NoDup (map user_id (users d));
  led_booking_ids : NoDup (map booking_id (bookings d));
  led_refs :
    Forall (fun b =>
              get_user (bk_user_id b) d <> None
              /\ exists t, get_showtime (bk_showtime_id b) d = Some t
                           /\ total_price b
                              = PrimFloat.mul (ticket_price t)
                                  (float_of_nat (List.length (booking_labels b))))
           (bookings d);
  led_booked :
    forall b s, In b (bookings d) -> In s (seats d) -> booking_names b s ->
                is_booked s = true;
  led_covered :
    forall s, In s (seats d) -> is_booked s = true ->
              exists b, In b (bookings d) /\ booking_names b s;
  led_apart : ForallOrdPairs bookings_apart (bookings d)
}.

(** A store whose seats were inserted out of label order. *)
Module Unsorted.

Definition store : DB :=
  mkDB [] [] [mkShowtime 1 1 0%Z 10%float]
       [mkSeat 1 1 "B1" false; mkSeat 2 1 "A2" true; mkSeat 3 1 "A1" false;
        mkSeat 4 2 "A1" false]
       [].

End Unsorted.

(** [str.upper] on one character below code point 256: a..z and the
    Latin-1 small letters (0xE0..0xFE without the division sign 0xF7) move
    down by 32, the sharp s (0xDF) becomes SS, and the micro sign (0xB5)
    and y with diaeresis (0xFF) have their capitals outside the range. *)
Definition upper_char (c : ascii) : option string :=
  let n := nat_of_ascii c in
  if (n =? 181) || (n =? 255) then None
  else if n =? 223 then Some "SS"
  else if ((97 <=? n) && (n <=? 122))
          || ((224 <=? n) && (n <=? 254) && negb (n =? 247))
       then Some (String (ascii_of_nat (n - 32)) EmptyString)
       else Some (String c EmptyString).

(** [str.upper], where the result stays below code point 256. *)
Fixpoint upper (s : string) : option string :=
  match s with
  | EmptyString => Some EmptyString
  | String c r =>
      match upper_char c, upper r with
      | Some x, Some y => Some (x ++ y)
      | _, _ => None
      end
  end.

(** An address spelled with a sharp s (code point 223). *)
Definition sharp_s_email : string := "stra" ++ String (ascii_of_nat 223) "e@x.de".

(** A key SQLite can bind as an integer: below 2^63.  A larger key in
    the URL makes the query raise [OverflowError]. *)
Definition sqlite_key (k : nat) : Prop := (Z.of_nat k < 2 ^ 63)%Z.

(** * Properties *)

Open Scope list_scope.
Open Scope nat_scope.

(** ** Booking *)

Lemma db_eta (d : DB) :
  mkDB (users d) (movies d) (showtimes d) (seats d) (bookings d) = d.
Proof. destruct d; reflexivity. Qed.

Lemma run_steps_cons (f : Session -> Session) (fs : list (Session -> Session)) (s : Session) :
  run_steps (f :: fs) s = run_steps fs (f s).
Proof. reflexivity. Qed.

(** Running the assignments of the loop marks every row whose key is
    the key of a fetched seat, and touches nothing else. *)
Lemma run_marks (matched : list Seat) (c w : DB) :
  run_steps (map (fun s => on_working (set_booked (seat_id s))) matched) (mkSession c w)
  = mkSession c
      (mkDB (users w) (movies w) (showtimes w)
            (map (fun s => if existsb (fun m => seat_id s =? seat_id m) matched
                           then mark_booked s else s) (seats w))
            (bookings w)).
Proof.
  revert w; induction matched as [|m matched IH]; intro w.
  - simpl. rewrite map_id, db_eta; reflexivity.
  - rewrite map_cons, run_steps_cons.
    change (on_working (set_booked (seat_id m)) (mkSession c w))
      with (mkSession c (set_booked (seat_id m) w)).
    rewrite IH. cbn [users movies showtimes seats bookings set_booked].
    rewrite map_map. do 2 f_equal. apply map_ext; intro s.
    cbn [existsb].
    destruct (seat_id s =? seat_id m) eqn:E; cbn [orb seat_id mark_booked].
    + destruct (existsb _ matched); reflexivity.
    + reflexivity.
Qed.

Lemma run_steps_app (xs ys : list (Session -> Session)) (s : Session) :
  run_steps (xs ++ ys) s = run_steps ys (run_steps xs s).
Proof. apply fold_left_app. Qed.

Lemma run_book_steps matched uid sid labels total now d :
  run_steps (book_steps matched uid sid labels total now) (begin d)
  = mkSession (booked_db matched uid sid labels total now d)
              (booked_db matched uid sid labels total now d).
Proof.
  unfold book_steps, begin. rewrite run_steps_app, run_marks. reflexivity.
Qed.

(** A crash after any number of steps leaves either the old store or
    the fully updated one. *)
Lemma book_steps_atomic matched uid sid labels total now d n :
  committed (run_steps (firstn n (book_steps matched uid sid labels total now)) (begin d)) = d
  \/ committed (run_steps (firstn n (book_steps matched uid sid labels total now)) (begin d))
     = booked_db matched uid sid labels total now d.
Proof.
  unfold book_steps.
  set (marks := map (fun s => on_working (set_booked (seat_id s))) matched).
  destruct (Nat.le_gt_cases n (List.length marks)) as [Hle|Hgt].
  - left. rewrite firstn_app.
    replace (n - List.length marks) with 0 by lia. simpl. rewrite app_nil_r.
    assert (H : forall l s, committed (run_steps (firstn n
              (map (fun s => on_working (set_booked (seat_id s))) l)) s) = committed s).
    { clear. revert n. intros n l; revert n.
      induction l as [|m l IH]; intros [|n] s; try reflexivity.
      rewrite map_cons, firstn_cons, run_steps_cons, IH. reflexivity. }
    apply H.
  - rewrite firstn_app, firstn_all2 by lia.
    rewrite run_steps_app. subst marks. unfold begin. rewrite run_marks.
    remember (n - List.length (map (fun s => on_working (set_booked (seat_id s))) matched))
      as k eqn:Hk.
    destruct k as [|[|k]]; simpl.
    + lia.
    + left; reflexivity.
    + right. rewrite firstn_nil. reflexivity.
Qed.

(** [book_tickets] for a logged-in user, an existing showtime and a
    non-empty selection. *)
Lemma book_tickets_cases now k sel d login u t :
  current_user login d = Some u ->
  get_showtime k d = Some t ->
  sel <> [] ->
  book_tickets now k sel d login
  = if unavailable (showtime_id t) sel d
    then mkResult d login [seats_unavailable] (Redirect (ep_showtime_detail (showtime_id t)))
    else mkResult
           (booked_db (seats_matching (showtime_id t) sel d) (user_id u) (showtime_id t)
                      (Text.join "," sel)
                      (PrimFloat.mul (ticket_price t) (float_of_nat (List.length sel))) now d)
           login
           [(("Booking confirmed for seats: " ++ Text.join ", " sel)%string, "success")]
           (Redirect ep_my_bookings).
Proof.
  intros Hu Ht Hsel. unfold book_tickets, unavailable. rewrite Hu, Ht.
  destruct sel as [|x sel]; [contradiction|].
  destruct (negb _ || _); [reflexivity|].
  rewrite run_book_steps. reflexivity.
Qed.

Lemma book_tickets_anonymous now k sel d login :
  current_user login d = None ->
  book_tickets now k sel d login = unauthorized d login.
Proof. intro H. unfold book_tickets. rewrite H. reflexivity. Qed.

Lemma seats_matching_In sid sel d s :
  In s (seats_matching sid sel d) <-> In s (seats d) /\ names_seat sid sel s = true.
Proof. unfold seats_matching, names_seat. apply filter_In. Qed.

Lemma unavailable_iff sid sel d :
  unavailable sid sel d = true <->
  List.length (seats_matching sid sel d) <> List.length sel
  \/ exists s, In s (seats d) /\ names_seat sid sel s = true /\ is_booked s = true.
Proof.
  unfold unavailable. rewrite orb_true_iff, negb_true_iff, Nat.eqb_neq, existsb_exists.
  split; (intros [H|[s H]]; [left; exact H|right; exists s]).
  - destruct H as [H1 H2]. apply seats_matching_In in H1. tauto.
  - split; [apply seats_matching_In|]; tauto.
Qed.

(** A rejected request, whoever sends it, leaves the store alone. *)
Lemma book_tickets_rejected_db now k sel d login t :
  get_showtime k d = Some t ->
  sel <> [] ->
  unavailable (showtime_id t) sel d = true ->
  res_db (book_tickets now k sel d login) = d.
Proof.
  intros Ht Hsel Hun.
  destruct (current_user login d) as [u|] eqn:Hu.
  - rewrite (book_tickets_cases now k sel d login u t Hu Ht Hsel), Hun. reflexivity.
  - rewrite book_tickets_anonymous by assumption. reflexivity.
Qed.

(** A request is confirmed only when it passed every check. *)
Lemma book_tickets_confirmed_inv now k sel d login t :
  get_showtime k d = Some t ->
  sel <> [] ->
  res_response (book_tickets now k sel d login) = Redirect ep_my_bookings ->
  exists u, current_user login d = Some u /\ unavailable (showtime_id t) sel d = false.
Proof.
  intros Ht Hsel Hr.
  destruct (current_user login d) as [u|] eqn:Hu.
  - exists u. split; [reflexivity|].
    rewrite (book_tickets_cases now k sel d login u t Hu Ht Hsel) in Hr.
    destruct (unavailable _ _ _); [discriminate|reflexivity].
  - rewrite book_tickets_anonymous in Hr by assumption. discriminate.
Qed.

(** The rejection branch of [book_tickets]. *)
Lemma book_tickets_rejected now k sel d login t :
  get_showtime k d = Some t ->
  sel <> [] ->
  (List.length (seats_matching (showtime_id t) sel d) <> List.length sel
   \/ exists s, In s (seats d) /\ names_seat (showtime_id t) sel s = true
                /\ is_booked s = true) ->
  let r := book_tickets now k sel d login in
  res_db r = d
  /\ seats (res_db r) = seats d
  /\ bookings (res_db r) = bookings d
  /\ (forall u, current_user login d = Some u ->
        r = mkResult d login [seats_unavailable]
                     (Redirect (ep_showtime_detail (showtime_id t)))).
Proof.
  intros Ht Hsel Hcond r. apply unavailable_iff in Hcond.
  assert (Hdb : res_db r = d) by (apply (book_tickets_rejected_db now k sel d login t); assumption).
  repeat split; try (rewrite Hdb; reflexivity).
  intros u Hu. unfold r.
  rewrite (book_tickets_cases now k sel d login u t Hu Ht Hsel), Hcond. reflexivity.
Qed.

(** After a confirmed booking every seat the request names is booked,
    so the same request sent again is rejected and changes nothing. *)
Lemma book_tickets_double_submission now k sel d login t now' login' :
  get_showtime k d = Some t ->
  sel <> [] ->
  res_response (book_tickets now k sel d login) = Redirect ep_my_bookings ->
  let d1 := res_db (book_tickets now k sel d login) in
  res_db (book_tickets now' k sel d1 login') = d1
  /\ res_response (book_tickets now' k sel d1 login') <> Redirect ep_my_bookings.
Proof.
  intros Ht Hsel Hok d1.
  destruct (book_tickets_confirmed_inv now k sel d login t Ht Hsel Hok) as (u & Hu & Hav).
  assert (Hd1 : d1 = booked_db (seats_matching (showtime_id t) sel d) (user_id u) (showtime_id t)
                      (Text.join "," sel)
                      (PrimFloat.mul (ticket_price t) (float_of_nat (List.length sel))) now d).
  { unfold d1. rewrite (book_tickets_cases now k sel d login u t Hu Ht Hsel), Hav. reflexivity. }
  assert (Ht1 : get_showtime k d1 = Some t) by (rewrite Hd1; exact Ht).
  assert (Hun : unavailable (showtime_id t) sel d1 = true).
  { apply unavailable_iff. right.
    unfold unavailable in Hav. apply orb_false_iff in Hav. destruct Hav as [Hlen _].
    apply negb_false_iff, Nat.eqb_eq in Hlen.
    destruct (seats_matching (showtime_id t) sel d) as [|m ms] eqn:Hm.
    { destruct sel; [contradiction|discriminate]. }
    assert (Hin : In m (seats_matching (showtime_id t) sel d)) by (rewrite Hm; left; reflexivity).
    apply seats_matching_In in Hin. destruct Hin as [Hin Hnames].
    exists (mark_booked m). rewrite Hd1. cbn [seats booked_db]. repeat split.
    - apply in_map_iff. exists m. split; [|exact Hin].
      cbn [existsb]. rewrite Nat.eqb_refl. reflexivity.
    - exact Hnames. }
  split.
  - apply (book_tickets_rejected_db now' k sel d1 login' t); assumption.
  - intro Hc.
    destruct (book_tickets_confirmed_inv now' k sel d1 login' t Ht1 Hsel Hc) as (u' & _ & Hav').
    congruence.
Qed.

(** C1: a booking request on an existing showtime with a non-empty
    selection is rejected as a whole when the number of seats matched by
    showtime and label differs from the number of labels, or some matched
    seat is already booked: the store (seat flags and booking records)
    is unchanged and the user is told the seats are unavailable.  In
    particular, after a confirmed booking a second submission of the
    same seats is rejected and changes nothing. *)
Theorem book_tickets_rejects_unavailable now k sel d login t :
  get_showtime k d = Some t ->
  sel <> [] ->
  let r := book_tickets now k sel d login in
  ((List.length (seats_matching (showtime_id t) sel d) <> List.length sel
    \/ exists s, In s (seats d) /\ names_seat (showtime_id t) sel s = true
                 /\ is_booked s = true) ->
   res_db r = d
   /\ seats (res_db r) = seats d
   /\ bookings (res_db r) = bookings d
   /\ (forall u, current_user login d = Some u ->
         r = mkResult d login [seats_unavailable]
                      (Redirect (ep_showtime_detail (showtime_id t)))))
  /\ (res_response r = Redirect ep_my_bookings ->
      forall now' login',
        res_db (book_tickets now' k sel (res_db r) login') = res_db r
        /\ res_response (book_tickets now' k sel (res_db r) login') <> Redirect ep_my_bookings).
Proof.
  intros Ht Hsel r. split.
  - intro Hcond. apply book_tickets_rejected; assumption.
  - intros Hok now' login'. apply (book_tickets_double_submission now k sel d login t); assumption.
Qed.

Lemma Forall2_map_self {A : Type} (R : A -> A -> Prop) (f : A -> A) (l : list A) :
  (forall x, In x l -> R x (f x)) -> Forall2 R l (map f l).
Proof.
  induction l as [|x l IH]; intro H; simpl; constructor.
  - apply H; left; reflexivity.
  - apply IH; intros y Hy; apply H; right; exact Hy.
Qed.

(** What a booking does to the seat table, row by row: keys, showtime
    and label stay, a flag is never cleared, and a flag that changes
    belongs to a row sharing its key with a fetched seat. *)
Lemma booked_db_seats matched uid sid labels total now d :
  Forall2 (fun s s' =>
             In s (seats d)
             /\ seat_id s' = seat_id s /\ seat_showtime_id s' = seat_showtime_id s
             /\ seat_label s' = seat_label s
             /\ (In s matched -> is_booked s' = true)
             /\ (is_booked s = true -> is_booked s' = true)
             /\ (is_booked s' <> is_booked s -> is_booked s = false /\ is_booked s' = true))
          (seats d) (seats (booked_db matched uid sid labels total now d)).
Proof.
  cbn [seats booked_db]. apply Forall2_map_self. intros s Hs.
  destruct (existsb (fun m => seat_id s =? seat_id m) matched) eqn:E.
  - cbn [mark_booked seat_id seat_showtime_id seat_label is_booked].
    do 5 (split; [assumption || reflexivity|]). split; [reflexivity|].
    intro H. destruct (is_booked s); [exfalso; apply H; reflexivity|split; reflexivity].
  - do 4 (split; [assumption || reflexivity|]). split; [|tauto].
    intro Hin. assert (existsb (fun m => seat_id s =? seat_id m) matched = true).
    { apply existsb_exists. exists s. split; [exact Hin|apply Nat.eqb_refl]. }
    congruence.
Qed.

(** C2: a confirmed booking of a non-empty selection creates exactly one
    booking record, whose total price is the ticket price of the showtime
    times the number of requested labels and whose seat labels are the
    requested labels joined by commas; every seat matched by the request
    becomes booked; and the seat updates and the new record reach the
    store in one commit: stopping after any number of steps leaves either
    the old store or the fully updated one. *)
Theorem book_tickets_confirms now k sel d login u t :
  current_user login d = Some u ->
  get_showtime k d = Some t ->
  sel <> [] ->
  List.length (seats_matching (showtime_id t) sel d) = List.length sel ->
  (forall s, In s (seats_matching (showtime_id t) sel d) -> is_booked s = false) ->
  let r := book_tickets now k sel d login in
  let total := PrimFloat.mul (ticket_price t) (float_of_nat (List.length sel)) in
  let steps := book_steps (seats_matching (showtime_id t) sel d) (user_id u) (showtime_id t)
                          (Text.join "," sel) total now in
  res_response r = Redirect ep_my_bookings
  /\ (exists b, bookings (res_db r) = (bookings d ++ [b])%list
                /\ total_price b = total
                /\ seat_labels b = Text.join "," sel
                /\ bk_user_id b = user_id u
                /\ bk_showtime_id b = showtime_id t)
  /\ Forall2 (fun s s' =>
                seat_id s' = seat_id s /\ seat_showtime_id s' = seat_showtime_id s
                /\ seat_label s' = seat_label s
                /\ (names_seat (showtime_id t) sel s = true -> is_booked s' = true))
             (seats d) (seats (res_db r))
  /\ res_db r = committed (run_steps steps (begin d))
  /\ (forall n, committed (run_steps (firstn n steps) (begin d)) = d
                \/ committed (run_steps (firstn n steps) (begin d)) = res_db r).
Proof.
  intros Hu Ht Hsel Hlen Hfree r total steps.
  assert (Hav : unavailable (showtime_id t) sel d = false).
  { unfold unavailable. apply orb_false_iff. split.
    - apply negb_false_iff, Nat.eqb_eq, Hlen.
    - destruct (existsb is_booked _) eqn:E; [|reflexivity].
      apply existsb_exists in E. destruct E as (s & Hin & Hb).
      rewrite (Hfree s Hin) in Hb. discriminate. }
  assert (Hr : r = mkResult
           (booked_db (seats_matching (showtime_id t) sel d) (user_id u) (showtime_id t)
                      (Text.join "," sel) total now d)
           login
           [(("Booking confirmed for seats: " ++ Text.join ", " sel)%string, "success")]
           (Redirect ep_my_bookings)).
  { unfold r. rewrite (book_tickets_cases now k sel d login u t Hu Ht Hsel), Hav. reflexivity. }
  rewrite Hr. cbn [res_db res_response]. split; [reflexivity|]. split; [|split; [|split]].
  - eexists. split; [reflexivity|]. repeat split.
  - eapply Forall2_impl; [|apply booked_db_seats].
    intros s s' (H0 & H1 & H2 & H3 & H4 & _). repeat split; try assumption.
    intro Hn. apply H4. apply seats_matching_In. split; assumption.
  - unfold steps. rewrite run_book_steps. reflexivity.
  - intro n. unfold steps. apply book_steps_atomic.
Qed.

(** ** Seeding: what each level of the loops adds *)

Lemma fold_max_app (l l' : list nat) :
  fold_right Nat.max 0 (l ++ l') = Nat.max (fold_right Nat.max 0 l) (fold_right Nat.max 0 l').
Proof. induction l as [|x l IH]; simpl; [reflexivity|]. rewrite IH. lia. Qed.

Lemma next_id_snoc (ids : list nat) (k : nat) :
  next_id ids <= k -> next_id (ids ++ [k]) = S k.
Proof. unfold next_id. rewrite fold_max_app. simpl. lia. Qed.

Lemma insert_seats_fold {X : Type} (f : X -> string) sid (xs : list X) (d : DB) :
  fold_left (fun d x => insert_seat sid (f x) d) xs d
  = mkDB (users d) (movies d) (showtimes d)
         (seats d ++ fresh_seats (next_id (map seat_id (seats d))) sid (map f xs))
         (bookings d).
Proof.
  revert d; induction xs as [|x xs IH]; intro d.
  - simpl. rewrite app_nil_r. destruct d; reflexivity.
  - cbn [fold_left]. rewrite IH. cbn [insert_seat users movies showtimes seats bookings].
    rewrite map_app. cbn [map seat_id]. rewrite next_id_snoc by lia.
    rewrite <- app_assoc. reflexivity.
Qed.

Lemma fresh_seats_app base sid l l' :
  fresh_seats base sid (l ++ l') = fresh_seats base sid l ++ fresh_seats (base + List.length l) sid l'.
Proof.
  revert base; induction l as [|x l IH]; intro base; simpl.
  - rewrite Nat.add_0_r; reflexivity.
  - rewrite IH. do 3 f_equal. lia.
Qed.

Lemma fresh_seats_ids base sid l :
  map seat_id (fresh_seats base sid l) = seq base (List.length l).
Proof. revert base; induction l; intro; simpl; [|rewrite IHl]; reflexivity. Qed.

Lemma fold_max_seq n b : fold_right Nat.max 0 (seq b (S n)) = b + n.
Proof.
  revert b; induction n as [|n IH]; intro b.
  - simpl. lia.
  - change (seq b (S (S n))) with (b :: seq (S b) (S n)). cbn [fold_right]. rewrite IH. lia.
Qed.

Lemma next_id_seq ids n :
  next_id (ids ++ seq (next_id ids) n) = next_id ids + n.
Proof.
  destruct n as [|n].
  - cbn [seq]. rewrite app_nil_r, Nat.add_0_r. reflexivity.
  - unfold next_id. rewrite fold_max_app, fold_max_seq. lia.
Qed.

Lemma create_seat_row_eq sid r cols d :
  create_seat_row sid r cols d
  = mkDB (users d) (movies d) (showtimes d)
         (seats d ++ fresh_seats (next_id (map seat_id (seats d))) sid
                                 (map (grid_label r) (seq 1 cols)))
         (bookings d).
Proof. unfold create_seat_row. apply insert_seats_fold. Qed.

Lemma create_seats_eq sid rows cols d :
  create_seats_for_showtime sid rows cols d
  = mkDB (users d) (movies d) (showtimes d)
         (seats d ++ fresh_seats (next_id (map seat_id (seats d))) sid
                      (flat_map (fun r => map (grid_label r) (seq 1 cols)) (seq 0 rows)))
         (bookings d).
Proof.
  unfold create_seats_for_showtime. generalize (seq 0 rows) as rs. intro rs.
  revert d; induction rs as [|r rs IH]; intro d.
  - simpl. rewrite app_nil_r. destruct d; reflexivity.
  - cbn [fold_left flat_map]. rewrite IH, create_seat_row_eq.
    cbn [users movies showtimes seats bookings].
    rewrite fresh_seats_app, map_app, fresh_seats_ids, next_id_seq.
    rewrite <- app_assoc. rewrite !length_map, !length_seq. reflexivity.
Qed.
(** The labels [create_seats_for_showtime] builds are the grid labels. *)
Lemma grid_ok : flat_map (fun r => map (grid_label r) (seq 1 8)) (seq 0 5) = grid_labels.
Proof. reflexivity. Qed.

Lemma next_id_fresh ss b sid labels :
  next_id (map seat_id ss) <= b -> labels <> [] ->
  next_id (map seat_id (ss ++ fresh_seats b sid labels)) = b + List.length labels.
Proof.
  intros Hb Hl. rewrite map_app, fresh_seats_ids.
  destruct labels as [|l labels]; [contradiction|].
  cbn [List.length]. unfold next_id in *. rewrite fold_max_app, fold_max_seq. lia.
Qed.

Lemma next_id_showtime_snoc ts k mid start price :
  next_id (map showtime_id ts) <= k ->
  next_id (map showtime_id (ts ++ [mkShowtime k mid start price])) = S k.
Proof. intro H. rewrite map_app. apply next_id_snoc. exact H. Qed.

Lemma seed_showtime_eq mid base d i :
  seed_showtime mid base d i
  = mkDB (users d) (movies d)
         (showtimes d ++ [mkShowtime (next_id (map showtime_id (showtimes d))) mid
                            (base + Clock.timedelta_hours (3 * Z.of_nat i))%Z (seed_price i)])
         (seats d ++ fresh_seats (next_id (map seat_id (seats d)))
                                 (next_id (map showtime_id (showtimes d))) grid_labels)
         (bookings d).
Proof. unfold seed_showtime. rewrite create_seats_eq. reflexivity. Qed.

Lemma seed_movie_eq now t descr dur poster d :
  seed_movie now (t, descr, dur, poster) d
  = mkDB (users d)
         (movies d ++ [mkMovie (next_id (map movie_id (movies d))) t descr dur poster])
         (showtimes d ++ showtimes_for (next_id (map movie_id (movies d)))
                                       (next_id (map showtime_id (showtimes d)))
                                       (seed_base_time now))
         (seats d ++ seats_for (next_id (map seat_id (seats d)))
                               (next_id (map showtime_id (showtimes d))))
         (bookings d).
Proof.
  unfold seed_movie. cbn [seq fold_left]. rewrite !seed_showtime_eq.
  cbn [users movies showtimes seats bookings insert_movie].
  assert (Hg : grid_labels <> []) by discriminate.
  assert (Hl : List.length grid_labels = 40) by reflexivity.
  rewrite (next_id_showtime_snoc (showtimes d)) by lia.
  rewrite (next_id_showtime_snoc (showtimes d ++ _)) by (rewrite next_id_showtime_snoc; lia).
  rewrite (next_id_fresh (seats d)) by (lia || exact Hg).
  rewrite (next_id_fresh (seats d ++ _)) by (exact Hg || (rewrite next_id_fresh by (lia || exact Hg); lia)).
  unfold showtimes_for, seats_for. cbn [map seq flat_map].
  rewrite <- !app_assoc, app_nil_r, Hl. cbn [app].
  repeat (f_equal; try lia).
Qed.

Lemma next_id_showtimes_for ts mid sid base :
  next_id (map showtime_id ts) <= sid ->
  next_id (map showtime_id (ts ++ showtimes_for mid sid base)) = sid + 3.
Proof.
  intro H. rewrite map_app. unfold showtimes_for. rewrite map_map. cbn [map seq showtime_id].
  unfold next_id in *. rewrite fold_max_app. cbn [fold_right]. lia.
Qed.

Lemma seats_for_ids b sid : map seat_id (seats_for b sid) = seq b 120.
Proof.
  unfold seats_for. cbn [flat_map seq]. rewrite !map_app, !fresh_seats_ids, app_nil_r.
  replace (List.length grid_labels) with 40 by reflexivity.
  replace (b + 40 * 0) with b by lia.
  replace (b + 40 * 1) with (b + 40) by lia.
  replace (b + 40 * 2) with (b + 40 + 40) by lia.
  rewrite <- !seq_app. reflexivity.
Qed.

Lemma next_id_seats_for ss b sid :
  next_id (map seat_id ss) <= b ->
  next_id (map seat_id (ss ++ seats_for b sid)) = b + 120.
Proof.
  intro H. rewrite map_app, seats_for_ids. unfold next_id in *.
  rewrite fold_max_app, (fold_max_seq 119). lia.
Qed.

Lemma next_id_movie_snoc ms k t descr dur poster :
  next_id (map movie_id ms) <= k ->
  next_id (map movie_id (ms ++ [mkMovie k t descr dur poster])) = S k.
Proof. intro H. rewrite map_app. apply next_id_snoc. exact H. Qed.

Lemma seed_movies_eq clock d :
  seed_movies clock 0 demo_movies d
  = mkDB (users d)
         (movies d ++ seeded_movies (next_id (map movie_id (movies d))))
         (showtimes d ++ seeded_showtimes clock (next_id (map movie_id (movies d)))
                                          (next_id (map showtime_id (showtimes d))))
         (seats d ++ seeded_seats (next_id (map seat_id (seats d)))
                                  (next_id (map showtime_id (showtimes d))))
         (bookings d).
Proof.
  cbn [seed_movies demo_movies]. rewrite !seed_movie_eq.
  cbn [users movies showtimes seats bookings].
  rewrite (next_id_movie_snoc (movies d)) by lia.
  rewrite (next_id_movie_snoc (movies d ++ _)) by (rewrite next_id_movie_snoc; lia).
  rewrite (next_id_showtimes_for (showtimes d)) by lia.
  rewrite (next_id_showtimes_for (showtimes d ++ _)) by (rewrite next_id_showtimes_for; lia).
  rewrite (next_id_seats_for (seats d)) by lia.
  rewrite (next_id_seats_for (seats d ++ _)) by (rewrite next_id_seats_for; lia).
  unfold seeded_movies, seeded_showtimes, seeded_seats.
  cbn [map seq flat_map combine demo_movies].
  rewrite <- !app_assoc, !app_nil_r. cbn [app].
  repeat (f_equal; try lia).
Qed.

(** ** Text *)

Ltac each_char c :=
  destruct c as [[] [] [] [] [] [] [] []]; reflexivity.

Lemma lower_char_idem (c : ascii) : Text.lower_char (Text.lower_char c) = Text.lower_char c.
Proof. each_char c. Qed.

Lemma is_space_lower_char (c : ascii) : Text.is_space (Text.lower_char c) = Text.is_space c.
Proof. each_char c. Qed.

Lemma lower_idem (s : string) : Text.lower (Text.lower s) = Text.lower s.
Proof. induction s as [|c s IH]; simpl; [|rewrite lower_char_idem, IH]; reflexivity. Qed.

Lemma lstrip_lower (s : string) : Text.lstrip (Text.lower s) = Text.lower (Text.lstrip s).
Proof.
  induction s as [|c s IH]; simpl; [reflexivity|].
  rewrite is_space_lower_char. destruct (Text.is_space c); [exact IH|reflexivity].
Qed.

Lemma rstrip_lower (s : string) : Text.rstrip (Text.lower s) = Text.lower (Text.rstrip s).
Proof.
  induction s as [|c s IH]; simpl; [reflexivity|].
  rewrite IH, is_space_lower_char.
  destruct (Text.rstrip s); simpl; [destruct (Text.is_space c)|]; reflexivity.
Qed.

Lemma strip_lower (s : string) : Text.strip (Text.lower s) = Text.lower (Text.strip s).
Proof. unfold Text.strip. rewrite lstrip_lower, rstrip_lower. reflexivity. Qed.

Lemma rstrip_idem (s : string) : Text.rstrip (Text.rstrip s) = Text.rstrip s.
Proof.
  induction s as [|c s IH]; simpl; [reflexivity|].
  destruct (Text.rstrip s) as [|c' s'] eqn:E.
  - destruct (Text.is_space c) eqn:Ec; simpl; [|rewrite Ec]; reflexivity.
  - change (Text.rstrip (String c (String c' s'))) with
      (match Text.rstrip (String c' s') with
       | EmptyString => if Text.is_space c then EmptyString else String c EmptyString
       | r' => String c r'
       end).
    rewrite IH. reflexivity.
Qed.

Lemma lstrip_lstripped (s : string) : lstripped (Text.lstrip s).
Proof.
  induction s as [|c s IH]; simpl; [exact I|].
  destruct (Text.is_space c) eqn:E; [exact IH|exact E].
Qed.

Lemma lstrip_fixed (s : string) : lstripped s -> Text.lstrip s = s.
Proof. destruct s as [|c s]; simpl; intro H; [|rewrite H]; reflexivity. Qed.

Lemma rstrip_lstripped (s : string) : lstripped s -> lstripped (Text.rstrip s).
Proof.
  destruct s as [|c s]; simpl; intro H; [exact I|].
  destruct (Text.rstrip s); [rewrite H|]; exact H.
Qed.

Lemma strip_idem (s : string) : Text.strip (Text.strip s) = Text.strip s.
Proof.
  unfold Text.strip.
  rewrite (lstrip_fixed (Text.rstrip (Text.lstrip s)))
    by apply rstrip_lstripped, lstrip_lstripped.
  apply rstrip_idem.
Qed.

Lemma normalize_email_idem (e : string) :
  normalize_email (normalize_email e) = normalize_email e.
Proof.
  unfold normalize_email. rewrite strip_lower, strip_idem, lower_idem. reflexivity.
Qed.

(** A stored, normalized email is what any spelling of it in another
    letter case normalizes to. *)
Lemma normalize_email_case (e stored : string) :
  normalize_email stored = stored ->
  Text.lower e = Text.lower stored ->
  normalize_email e = stored.
Proof.
  unfold normalize_email. intros Hs He.
  rewrite <- strip_lower, He, strip_lower. exact Hs.
Qed.

(** ** Seeding: the routine as a whole *)

Section SeedFacts.

Variable generate_password_hash : string -> string -> string.

Lemma seed_noop clock salt d : movies d <> [] -> seed_demo_data generate_password_hash clock salt d = d.
Proof.
  intro H. unfold seed_demo_data. destruct (movies d); [contradiction|]. reflexivity.
Qed.

Lemma seed_runs clock salt d :
  movies d = [] ->
  seed_demo_data generate_password_hash clock salt d = seed_demo_user generate_password_hash salt (seed_movies clock 0 demo_movies d).
Proof. intro H. unfold seed_demo_data. rewrite H. reflexivity. Qed.

Lemma seed_user_catalog salt d :
  movies (seed_demo_user generate_password_hash salt d) = movies d
  /\ showtimes (seed_demo_user generate_password_hash salt d) = showtimes d
  /\ seats (seed_demo_user generate_password_hash salt d) = seats d
  /\ bookings (seed_demo_user generate_password_hash salt d) = bookings d.
Proof. unfold seed_demo_user. destruct (user_by_email _ d); repeat split. Qed.

Lemma seed_movies_catalog clock d :
  movies (seed_movies clock 0 demo_movies d) <> [].
Proof.
  rewrite seed_movies_eq. cbn [movies]. intro H. apply app_eq_nil in H.
  destruct H as [_ H]. discriminate.
Qed.

Lemma seed_twice clock salt clock' salt' d :
  seed_demo_data generate_password_hash clock' salt' (seed_demo_data generate_password_hash clock salt d) = seed_demo_data generate_password_hash clock salt d.
Proof.
  destruct (movies d) as [|m ms] eqn:E.
  - apply seed_noop. rewrite seed_runs by exact E.
    destruct (seed_user_catalog salt (seed_movies clock 0 demo_movies d)) as [-> _].
    apply seed_movies_catalog.
  - rewrite (seed_noop clock salt d) by (rewrite E; discriminate).
    apply seed_noop. rewrite E; discriminate.
Qed.

Lemma user_by_email_None e d :
  user_by_email e d = None <-> ~ In e (map user_email (users d)).
Proof.
  unfold user_by_email. split.
  - intros H Hin. apply in_map_iff in Hin. destruct Hin as (u & He & Hu).
    apply (find_none _ _ H) in Hu. rewrite He, String.eqb_refl in Hu. discriminate.
  - intro H. destruct (find _ (users d)) as [u|] eqn:E; [|reflexivity].
    apply find_some in E. destruct E as [Hu He]. apply String.eqb_eq in He.
    exfalso. apply H. apply in_map_iff. exists u. split; assumption.
Qed.

Lemma user_by_email_Some e d u :
  user_by_email e d = Some u -> In u (users d) /\ user_email u = e.
Proof.
  unfold user_by_email. intro H. apply find_some in H.
  destruct H as [Hu He]. apply String.eqb_eq in He. split; assumption.
Qed.

(** What seeding leaves when it starts from empty catalog tables. *)
Lemma seed_unseeded clock salt d :
  unseeded d ->
  movies (seed_demo_data generate_password_hash clock salt d) = seeded_movies 1
  /\ showtimes (seed_demo_data generate_password_hash clock salt d) = seeded_showtimes clock 1 1
  /\ seats (seed_demo_data generate_password_hash clock salt d) = seeded_seats 1 1
  /\ bookings (seed_demo_data generate_password_hash clock salt d) = []
  /\ users (seed_demo_data generate_password_hash clock salt d) = users (seed_demo_user generate_password_hash salt d).
Proof.
  intros (Hm & Ht & Hs & Hb). rewrite seed_runs by exact Hm.
  destruct (seed_user_catalog salt (seed_movies clock 0 demo_movies d)) as (-> & -> & -> & ->).
  rewrite seed_movies_eq. cbn [movies showtimes seats bookings].
  rewrite Hm, Ht, Hs, Hb. repeat split.
  unfold seed_demo_user, user_by_email. cbn [users].
  destruct (find _ (users d)); reflexivity.
Qed.

(** The demo account is present after seeding, and present once if
    emails were unique before. *)
Lemma seed_user_emails salt d :
  In demo_email (map user_email (users (seed_demo_user generate_password_hash salt d)))
  /\ (NoDup (map user_email (users d)) -> NoDup (map user_email (users (seed_demo_user generate_password_hash salt d))))
  /\ (Forall (fun u => normalize_email (user_email u) = user_email u) (users d) ->
      Forall (fun u => normalize_email (user_email u) = user_email u) (users (seed_demo_user generate_password_hash salt d))).
Proof.
  unfold seed_demo_user. fold demo_email.
  destruct (user_by_email demo_email d) as [u|] eqn:E.
  - apply user_by_email_Some in E. destruct E as [Hu He].
    repeat split; try tauto. apply in_map_iff. exists u. split; assumption.
  - apply user_by_email_None in E. cbn [users insert_user]. rewrite map_app. cbn [map user_email].
    repeat split.
    + apply in_or_app. right. left. reflexivity.
    + intro Hnd. apply NoDup_app; [exact Hnd|repeat constructor; intros []|].
      intros x Hx [<-|[]]. exact (E Hx).
    + intro Hf. apply Forall_app. split; [exact Hf|]. repeat constructor.
Qed.

End SeedFacts.

(** ** The seeded catalog *)

Lemma seeded_showtime_ids clock : map showtime_id (seeded_showtimes clock 1 1) = seq 1 9.
Proof. reflexivity. Qed.

Lemma seeded_showtime_movies clock :
  map st_movie_id (seeded_showtimes clock 1 1) = [1; 1; 1; 2; 2; 2; 3; 3; 3].
Proof. reflexivity. Qed.

Lemma grid_labels_NoDup : NoDup grid_labels.
Proof.
  apply (NoDup_count_occ' string_dec). intros x Hx.
  repeat (destruct Hx as [<-|Hx]; [reflexivity|]). destruct Hx.
Qed.

Lemma grid_labels_no_comma : Forall (fun l => no_comma l = true) grid_labels.
Proof. repeat constructor. Qed.

Lemma seats_of_showtime_labels k d :
  map seat_label (seats_of_showtime k d)
  = map snd (filter (fun key => snd (fst key) =? k) (map seat_key (seats d))).
Proof.
  unfold seats_of_showtime. induction (seats d) as [|s ss IH]; [reflexivity|].
  cbn [filter map seat_key fst snd]. destruct (seat_showtime_id s =? k); cbn [map]; rewrite IH; reflexivity.
Qed.

Lemma seeded_grid k :
  In k (seq 1 9) ->
  map snd (filter (fun key => snd (fst key) =? k) (map seat_key (seeded_seats 1 1)))
  = grid_labels.
Proof.
  intro Hk. repeat (destruct Hk as [<-|Hk]; [vm_compute; reflexivity|]). destruct Hk.
Qed.

Lemma get_showtime_Some k d t :
  get_showtime k d = Some t -> In t (showtimes d) /\ showtime_id t = k.
Proof.
  unfold get_showtime. intro H. apply find_some in H. destruct H as [Hin Hk].
  apply Nat.eqb_eq in Hk. split; assumption.
Qed.

(** In a seeded store every showtime has exactly the grid seats. *)
Lemma seeded_catalog_grid d t :
  seeded_catalog d -> In t (showtimes d) ->
  map seat_label (seats_of_showtime (showtime_id t) d) = grid_labels.
Proof.
  intros (_ & [clock Ht] & Hs & _) Hin.
  rewrite seats_of_showtime_labels, Hs. apply seeded_grid.
  rewrite <- (seeded_showtime_ids clock), <- Ht. apply in_map. exact Hin.
Qed.

Lemma unseeded_no_showtime d k : unseeded d -> get_showtime k d = None.
Proof. intros (_ & Ht & _). unfold get_showtime. rewrite Ht. reflexivity. Qed.

(** ** The CSV column *)

Lemma split_csv_no_comma s : no_comma s = true -> split_csv s = [s].
Proof.
  induction s as [|c s IH]; cbn [no_comma split_csv]; intro H; [reflexivity|].
  apply andb_true_iff in H. destruct H as [Hc Hs]. apply negb_true_iff in Hc.
  rewrite Hc, (IH Hs). reflexivity.
Qed.

Lemma split_csv_cons x r :
  no_comma x = true -> split_csv (x ++ "," ++ r)%string = x :: split_csv r.
Proof.
  induction x as [|c x IH]; cbn [no_comma]; intro H.
  - reflexivity.
  - apply andb_true_iff in H. destruct H as [Hc Hx]. apply negb_true_iff in Hc.
    cbn [String.append split_csv]. rewrite Hc.
    change (split_csv (x ++ String "," r)%string) with (split_csv (x ++ "," ++ r)%string).
    rewrite (IH Hx). reflexivity.
Qed.

Lemma split_csv_join sel :
  Forall (fun l => no_comma l = true) sel -> sel <> [] ->
  split_csv (Text.join "," sel) = sel.
Proof.
  induction sel as [|x sel IH]; intros Hf Hne; [contradiction|].
  inversion Hf as [|? ? Hx Hsel]; subst.
  destruct sel as [|y sel].
  - apply split_csv_no_comma. exact Hx.
  - change (Text.join "," (x :: y :: sel)) with (x ++ "," ++ Text.join "," (y :: sel))%string.
    rewrite split_csv_cons by exact Hx. rewrite IH; [reflexivity|exact Hsel|discriminate].
Qed.

(** ** Which selections pass the availability check *)

Lemma label_in_In x sel : label_in x sel = true <-> In x sel.
Proof.
  unfold label_in. rewrite existsb_exists. split.
  - intros (y & Hy & E). apply String.eqb_eq in E. subst. exact Hy.
  - intro H. exists x. split; [exact H|apply String.eqb_refl].
Qed.

Lemma seats_matching_labels sid sel d :
  map seat_label (seats_matching sid sel d)
  = filter (fun l => label_in l sel) (map seat_label (seats_of_showtime sid d)).
Proof.
  unfold seats_matching, seats_of_showtime. induction (seats d) as [|s ss IH]; [reflexivity|].
  cbn [filter]. destruct (seat_showtime_id s =? sid); cbn [andb map filter].
  - destruct (label_in (seat_label s) sel); cbn [map]; rewrite IH; reflexivity.
  - exact IH.
Qed.

(** With distinct labels on the seats of a showtime, the seats a request
    matches are at most as many as its labels, and as many only when the
    labels are distinct and all found. *)
Lemma matched_count sid sel d :
  NoDup (map seat_label (seats_of_showtime sid d)) ->
  List.length (seats_matching sid sel d) <= List.length sel
  /\ (List.length (seats_matching sid sel d) = List.length sel ->
      NoDup sel /\ incl sel (map seat_label (seats_of_showtime sid d))).
Proof.
  intro Hnd.
  rewrite <- (length_map seat_label (seats_matching sid sel d)), seats_matching_labels.
  set (L := filter (fun l => label_in l sel) (map seat_label (seats_of_showtime sid d))).
  assert (HL : NoDup L) by (apply NoDup_filter; exact Hnd).
  assert (Hincl : incl L sel).
  { intros x Hx. apply filter_In in Hx. apply label_in_In. tauto. }
  split.
  - apply NoDup_incl_length; assumption.
  - intro Hlen. split.
    + apply (NoDup_incl_NoDup HL); [lia|exact Hincl].
    + intros x Hx. assert (Hx' : In x L).
      { apply (NoDup_length_incl HL (l' := sel)); [lia|exact Hincl|exact Hx]. }
      apply filter_In in Hx'. tauto.
Qed.

(** ** The store invariant *)

Lemma unavailable_false_len sid sel d :
  unavailable sid sel d = false ->
  List.length (seats_matching sid sel d) = List.length sel.
Proof.
  unfold unavailable. intro H. apply orb_false_iff in H. destruct H as [H _].
  apply negb_false_iff, Nat.eqb_eq in H. exact H.
Qed.

(** The store [book_tickets] leaves is the old one or the booked one. *)
Lemma book_tickets_db now k sel d login :
  res_db (book_tickets now k sel d login) = d
  \/ exists u t,
       get_showtime k d = Some t /\ sel <> [] /\ unavailable (showtime_id t) sel d = false
       /\ res_db (book_tickets now k sel d login)
          = booked_db (seats_matching (showtime_id t) sel d) (user_id u) (showtime_id t)
              (Text.join "," sel)
              (PrimFloat.mul (ticket_price t) (float_of_nat (List.length sel))) now d.
Proof.
  destruct (current_user login d) as [u|] eqn:Hu.
  2:{ left. rewrite book_tickets_anonymous by exact Hu. reflexivity. }
  destruct (get_showtime k d) as [t|] eqn:Ht.
  2:{ left. unfold book_tickets. rewrite Hu, Ht. reflexivity. }
  destruct sel as [|x sel].
  { left. unfold book_tickets. rewrite Hu, Ht. reflexivity. }
  assert (Hsel : x :: sel <> []) by discriminate.
  rewrite (book_tickets_cases now k (x :: sel) d login u t Hu Ht Hsel).
  destruct (unavailable (showtime_id t) (x :: sel) d) eqn:Hav.
  - left. reflexivity.
  - right. exists u, t. repeat split; assumption || reflexivity.
Qed.

Lemma booked_db_seat_keys matched uid sid labels total now d :
  map seat_key (seats (booked_db matched uid sid labels total now d)) = map seat_key (seats d).
Proof.
  cbn [seats booked_db]. rewrite map_map. apply map_ext. intro s.
  destruct (existsb _ matched); reflexivity.
Qed.

Lemma db_ok_book now k sel d login :
  db_ok d -> db_ok (res_db (book_tickets now k sel d login)).
Proof.
  intro Hok. destruct (book_tickets_db now k sel d login) as [->|(u & t & Ht & Hsel & Hav & ->)];
    [exact Hok|].
  destruct Hok as [Hn Hu [Hc|Hc] Hb].
  { rewrite (unseeded_no_showtime d k Hc) in Ht. discriminate. }
  constructor; try assumption.
  - right. destruct Hc as (Hm & Hts & Hs & Hd). repeat split; try assumption.
    rewrite booked_db_seat_keys. exact Hs.
  - cbn [bookings booked_db]. apply Forall_app. split; [exact Hb|].
    constructor; [|constructor]. cbn [seat_labels].
    apply get_showtime_Some in Ht. destruct Ht as [Hin _].
    pose proof (seeded_catalog_grid d t Hc Hin) as Hg.
    destruct (matched_count (showtime_id t) sel d) as [_ Hm].
    { rewrite Hg. apply grid_labels_NoDup. }
    destruct (Hm (unavailable_false_len _ _ _ Hav)) as [Hnd Hincl].
    rewrite Hg in Hincl.
    rewrite split_csv_join; [split; assumption| |exact Hsel].
    apply Forall_forall. intros l Hl.
    apply (proj1 (Forall_forall _ _) grid_labels_no_comma). apply Hincl. exact Hl.
Qed.

Lemma db_ok_empty : db_ok empty_db.
Proof.
  constructor; try constructor. repeat split.
Qed.

Section Invariant.

Variable generate_password_hash : string -> string -> string.
Variable check_password_hash : string -> string -> bool.

Lemma db_ok_seed clock salt d :
  db_ok d -> db_ok (seed_demo_data generate_password_hash clock salt d).
Proof.
  intro Hok. destruct (movies d) as [|m ms] eqn:E.
  2:{ rewrite seed_noop; [exact Hok|rewrite E; discriminate]. }
  destruct Hok as [Hn Hu [Hc|Hc] Hb].
  2:{ destruct Hc as [Hm _]. rewrite E in Hm. discriminate. }
  destruct (seed_unseeded generate_password_hash clock salt d Hc) as (Hm & Ht & Hs & Hbk & Hus).
  destruct (seed_user_emails generate_password_hash salt d) as (Hin & Hnd & Hnorm).
  constructor.
  - rewrite Hus. apply Hnorm, Hn.
  - rewrite Hus. apply Hnd, Hu.
  - right. repeat split.
    + exact Hm.
    + exists clock. exact Ht.
    + rewrite Hs. reflexivity.
    + rewrite Hus. exact Hin.
  - rewrite Hbk. constructor.
Qed.

(** The store [register] leaves is the old one or has one more user. *)
Lemma register_post_db name email password salt d login :
  res_db (register_post generate_password_hash name email password salt d login) = d
  \/ (Text.is_empty (Text.strip name) = false
      /\ Text.is_empty (normalize_email email) = false
      /\ Text.is_empty password = false
      /\ user_by_email (normalize_email email) d = None
      /\ res_db (register_post generate_password_hash name email password salt d login)
         = insert_user (Text.strip name) (normalize_email email)
                       (generate_password_hash salt password) false d).
Proof.
  unfold register_post.
  destruct (Text.is_empty (Text.strip name)); [left; reflexivity|].
  destruct (Text.is_empty (normalize_email email)); [left; reflexivity|].
  destruct (Text.is_empty password); [left; reflexivity|]. cbn [orb].
  destruct (user_by_email (normalize_email email) d) eqn:E; [left; reflexivity|].
  right. repeat split.
Qed.

Lemma db_ok_register name email password salt d login :
  db_ok d ->
  db_ok (res_db (register_post generate_password_hash name email password salt d login)).
Proof.
  intro Hok.
  destruct (register_post_db name email password salt d login)
    as [->|(_ & _ & _ & Hfree & ->)]; [exact Hok|].
  destruct Hok as [Hn Hu Hc Hb].
  apply user_by_email_None in Hfree.
  constructor; cbn [users movies showtimes seats bookings insert_user]; try assumption.
  - apply Forall_app. split; [exact Hn|]. constructor; [|constructor].
    apply normalize_email_idem.
  - rewrite map_app. apply NoDup_app; [exact Hu|repeat constructor; intros []|].
    intros x Hx [<-|[]]. exact (Hfree Hx).
  - destruct Hc as [Hc|(Hm & Ht & Hs & Hd)]; [left; exact Hc|right].
    repeat split; try assumption. cbn [users insert_user]. rewrite map_app. apply in_or_app. left. exact Hd.
Qed.

Lemma login_post_db email password next d login :
  res_db (login_post check_password_hash email password next d login) = d.
Proof.
  unfold login_post. destruct (user_by_email _ d) as [u|]; [|reflexivity].
  destruct (check_password_hash _ _); reflexivity.
Qed.

Lemma showtime_detail_db k d login : res_db (showtime_detail k d login) = d.
Proof.
  unfold showtime_detail. destruct (get_showtime k d); [|reflexivity].
  destruct (organize_rows _ _); reflexivity.
Qed.

Lemma movie_detail_db k d login : res_db (movie_detail k d login) = d.
Proof. unfold movie_detail. destruct (get_movie k d); reflexivity. Qed.

Lemma my_bookings_db d login : res_db (my_bookings d login) = d.
Proof. unfold my_bookings. destruct (current_user login d); reflexivity. Qed.

Lemma logout_db d login : res_db (logout d login) = d.
Proof. unfold logout. destruct (current_user login d); reflexivity. Qed.

(** Every reachable store satisfies the invariant. *)
Lemma reachable_ok d :
  reachable generate_password_hash check_password_hash d -> db_ok d.
Proof.
  induction 1 as [|op d login Hr IH]; [exact db_ok_empty|].
  destruct op; cbn [run fst].
  - exact IH.
  - rewrite movie_detail_db. exact IH.
  - rewrite showtime_detail_db. exact IH.
  - apply db_ok_book. exact IH.
  - rewrite my_bookings_db. exact IH.
  - exact IH.
  - rewrite login_post_db. exact IH.
  - exact IH.
  - apply db_ok_register. exact IH.
  - rewrite logout_db. exact IH.
  - apply db_ok_seed. exact IH.
  - apply db_ok_seed. exact db_ok_empty.
Qed.

End Invariant.

(** ** Seat flags across operations *)

Lemma flag_step_refl b (l : list Seat) : Forall2 (flag_step b) l l.
Proof.
  induction l as [|s l IH]; constructor; [|exact IH].
  repeat split; tauto.
Qed.

Section Operations.

Variable generate_password_hash : string -> string -> string.
Variable check_password_hash : string -> string -> bool.

Lemma seed_seats clock salt d :
  exists added,
    seats (seed_demo_data generate_password_hash clock salt d) = seats d ++ added
    /\ Forall (fun s => is_booked s = false) added.
Proof.
  destruct (movies d) as [|m ms] eqn:E.
  - rewrite seed_runs by exact E.
    destruct (seed_user_catalog generate_password_hash salt (seed_movies clock 0 demo_movies d))
      as (_ & _ & -> & _).
    rewrite seed_movies_eq. cbn [seats]. eexists. split; [reflexivity|].
    generalize (next_id (map seat_id (seats d))) (next_id (map showtime_id (showtimes d))).
    intros b sid. unfold seeded_seats, seats_for. cbn [flat_map seq].
    assert (H : forall base k labels, Forall (fun s => is_booked s = false)
                                             (fresh_seats base k labels)).
    { intros base k labels; revert base; induction labels; intro; constructor; auto. }
    repeat (apply Forall_app; split); try apply H; constructor.
  - rewrite seed_noop by (rewrite E; discriminate).
    exists []. rewrite app_nil_r. split; constructor.
Qed.

(** C3: every request handler and the seeding routine keep the seat
    rows in place, possibly adding rows after them; a booked flag is never
    cleared, and a flag changes only under [book_tickets], from unbooked to
    booked.  The [init-db] command is the exception: it drops the tables
    and seeds again, so whatever was booked is replaced by unbooked rows. *)
Theorem seat_flags_only_set_by_booking op d login :
  match op with
  | OpInitDb clock salt =>
      fst (run generate_password_hash check_password_hash op d login)
      = seed_demo_data generate_password_hash clock salt empty_db
      /\ Forall (fun s => is_booked s = false)
                (seats (fst (run generate_password_hash check_password_hash op d login)))
  | _ =>
      exists kept added,
        seats (fst (run generate_password_hash check_password_hash op d login)) = kept ++ added
        /\ Forall2 (flag_step (is_booking op)) (seats d) kept
        /\ Forall (fun s => is_booked s = false) added
  end.
Proof.
  assert (Hsame : forall b d', seats d' = seats d ->
            exists kept added, seats d' = kept ++ added
              /\ Forall2 (flag_step b) (seats d) kept
              /\ Forall (fun s => is_booked s = false) added).
  { intros b d' ->. exists (seats d), []. rewrite app_nil_r.
    repeat split; [apply flag_step_refl|constructor]. }
  destruct op; cbn [run fst is_booking].
  - apply Hsame. reflexivity.
  - apply Hsame. rewrite movie_detail_db. reflexivity.
  - apply Hsame. rewrite showtime_detail_db. reflexivity.
  - destruct (book_tickets_db now k selected_seats d login) as [->|(u & t & _ & _ & _ & ->)].
    + apply Hsame. reflexivity.
    + eexists _, []. rewrite app_nil_r. split; [reflexivity|]. split; [|constructor].
      eapply Forall2_impl; [|apply booked_db_seats].
      intros s s' (_ & H1 & H2 & H3 & _ & H5 & H6).
      unfold flag_step, seat_key. rewrite H1, H2, H3. repeat split; try assumption.
      * apply H6. assumption.
      * apply H6. assumption.
  - apply Hsame. rewrite my_bookings_db. reflexivity.
  - apply Hsame. reflexivity.
  - apply Hsame. rewrite login_post_db. reflexivity.
  - apply Hsame. reflexivity.
  - destruct (register_post_db generate_password_hash name email password salt d login)
      as [->|(_ & _ & _ & _ & ->)]; apply Hsame; reflexivity.
  - apply Hsame. rewrite logout_db. reflexivity.
  - destruct (seed_seats clock salt d) as (added & Hs & Ha).
    exists (seats d), added. repeat split; [exact Hs|apply flag_step_refl|exact Ha].
  - unfold init_db_command. split; [reflexivity|].
    destruct (seed_seats clock salt empty_db) as (added & Hs & Ha).
    rewrite Hs. exact Ha.
Qed.

End Operations.

(** After a booking, [init-db] leaves seat 1 of showtime 1 unbooked again. *)
Lemma init_db_clears_booked_seat :
  exists s s',
    In s (seats Demo.after_booking)
    /\ In s' (seats (fst (run Demo.toy_hash Demo.toy_check
                             (OpInitDb (fun _ => Demo.half_past_one) "s")
                             Demo.after_booking (Some 1))))
    /\ seat_key s' = seat_key s
    /\ is_booked s = true
    /\ is_booked s' = false.
Proof.
  exists (mkSeat 1 1 "A1" true), (mkSeat 1 1 "A1" false).
  split; [vm_compute; left; reflexivity|].
  split; [vm_compute; left; reflexivity|].
  repeat split.
Qed.

(** ** Seeding: what a run leaves *)

Lemma seeded_seat_places :
  map (fun key => (snd (fst key), snd key)) (map seat_key (seeded_seats 1 1)) = seeded_places.
Proof. vm_compute. reflexivity. Qed.

Lemma seeded_movie_titles :
  map title (seeded_movies 1) = ["Interstellar"; "Inception"; "The Dark Knight"].
Proof. reflexivity. Qed.

Section SeedResults.

Variable generate_password_hash : string -> string -> string.
Variable check_password_hash : string -> string -> bool.

(** Seeding leaves a seeded store, whatever reachable store it starts from. *)
Lemma seed_seeded clock salt d :
  db_ok d -> seeded_catalog (seed_demo_data generate_password_hash clock salt d).
Proof.
  intro Hok. pose proof (db_ok_seed generate_password_hash clock salt d Hok) as Hok'.
  destruct (ok_catalog _ Hok') as [(Hm & _)|Hc]; [|exact Hc].
  exfalso. destruct (movies d) as [|m ms] eqn:E.
  - rewrite seed_runs in Hm by exact E.
    destruct (seed_user_catalog generate_password_hash salt (seed_movies clock 0 demo_movies d))
      as (Hm' & _).
    rewrite Hm' in Hm. exact (seed_movies_catalog clock d Hm).
  - rewrite seed_noop in Hm by (rewrite E; discriminate). rewrite E in Hm. discriminate.
Qed.

(** C4: seeding does its work only on an empty movie catalog, so a
    second run changes nothing; after it the store holds each demo movie
    once, three showtimes per movie, one seat per showtime and grid
    label, and one demo account. *)
Theorem seed_demo_data_idempotent clock salt clock' salt' d :
  (movies d <> [] -> seed_demo_data generate_password_hash clock salt d = d)
  /\ seed_demo_data generate_password_hash clock' salt'
       (seed_demo_data generate_password_hash clock salt d)
     = seed_demo_data generate_password_hash clock salt d
  /\ (reachable generate_password_hash check_password_hash d ->
      let d2 := seed_demo_data generate_password_hash clock' salt'
                  (seed_demo_data generate_password_hash clock salt d) in
      map title (movies d2) = ["Interstellar"; "Inception"; "The Dark Knight"]
      /\ map st_movie_id (showtimes d2) = [1; 1; 1; 2; 2; 2; 3; 3; 3]
      /\ map showtime_id (showtimes d2) = seq 1 9
      /\ map (fun s => (seat_showtime_id s, seat_label s)) (seats d2) = seeded_places
      /\ count_occ string_dec (map user_email (users d2)) demo_email = 1).
Proof.
  split; [apply seed_noop|]. split; [apply seed_twice|].
  intros Hr d2. unfold d2. rewrite seed_twice.
  apply reachable_ok in Hr.
  pose proof (db_ok_seed generate_password_hash clock salt d Hr) as Hok.
  destruct (seed_seeded clock salt d Hr) as (Hm & [c Ht] & Hs & Hd).
  rewrite Hm, Ht. repeat split.
  - rewrite <- seeded_seat_places, <- Hs, map_map. reflexivity.
  - apply NoDup_count_occ'; [apply (ok_emails_unique _ Hok)|exact Hd].
Qed.

(** The three showtimes of the movie stored at position [k]. *)
Lemma seeded_showtimes_of clock k m :
  nth_error (seeded_movies 1) k = Some m ->
  map (fun t => (start_time t, ticket_price t))
      (filter (fun t => st_movie_id t =? movie_id m) (seeded_showtimes clock 1 1))
  = [ (seed_base_time (clock k), 10%float);
      ((seed_base_time (clock k) + Clock.timedelta_hours 3)%Z, 12%float);
      ((seed_base_time (clock k) + Clock.timedelta_hours 6)%Z, 14%float) ].
Proof.
  destruct k as [|[|[|k]]]; cbn [nth_error seeded_movies]; intro H.
  4:{ destruct k; discriminate. }
  all: injection H as <-; cbn -[Z.add Clock.timedelta_hours seed_base_time].
  all: change (Clock.timedelta_hours 0) with 0%Z; rewrite Z.add_0_r; reflexivity.
Qed.


(** C5, as the code has it: seeding an empty catalog gives the movie at
    position [k] exactly three showtimes, priced 10.0, 12.0 and 14.0; the
    first starts two hours after the seeding time of that movie with its
    minutes, seconds and microseconds set to zero, and each next one
    three hours after the one before. *)
Theorem seed_demo_data_showtimes clock salt d k m :
  reachable generate_password_hash check_password_hash d ->
  movies d = [] ->
  let d1 := seed_demo_data generate_password_hash clock salt d in
  nth_error (movies d1) k = Some m ->
  let first := (Clock.replace_to_hour (clock k) + Clock.timedelta_hours 2)%Z in
  List.length (movies d1) = 3
  /\ map (fun t => (start_time t, ticket_price t))
         (filter (fun t => st_movie_id t =? movie_id m) (showtimes d1))
     = [ (first, 10%float);
         ((first + Clock.timedelta_hours 3)%Z, 12%float);
         ((first + Clock.timedelta_hours 6)%Z, 14%float) ].
Proof.
  intros Hr Hm d1 Hk first.
  apply reachable_ok in Hr.
  destruct (ok_catalog _ Hr) as [Hun|(Hm' & _)].
  2:{ rewrite Hm in Hm'. discriminate. }
  destruct (seed_unseeded generate_password_hash clock salt d Hun) as (H1 & H2 & _).
  fold d1 in H1, H2. rewrite H1 in Hk |- *. rewrite H2.
  split; [reflexivity|]. apply (seeded_showtimes_of clock k m Hk).
Qed.

End SeedResults.

(** Seeding at half past one: the first showtime starts at three, not
    at half past three. *)
Lemma first_showtime_starts_on_the_hour :
  exists t,
    nth_error (showtimes Demo.seeded) 0 = Some t
    /\ start_time t <> (Demo.half_past_one + Clock.timedelta_hours 2)%Z
    /\ start_time t = (Clock.timedelta_hours 3)%Z.
Proof.
  eexists. split; [vm_compute; reflexivity|]. split; [discriminate|reflexivity].
Qed.

Lemma seeded_seats_of k :
  In k (seq 1 9) ->
  map (fun s => (seat_showtime_id s, seat_label s, is_booked s))
      (filter (fun s => seat_showtime_id s =? k) (seeded_seats 1 1))
  = map (fun l => (k, l, false)) grid_labels.
Proof.
  intro Hk. repeat (destruct Hk as [<-|Hk]; [vm_compute; reflexivity|]). destruct Hk.
Qed.

Lemma seeded_seats_showtime s :
  In s (seeded_seats 1 1) -> count_occ Nat.eq_dec (seq 1 9) (seat_showtime_id s) = 1.
Proof.
  assert (H : forallb (fun s => count_occ Nat.eq_dec (seq 1 9) (seat_showtime_id s) =? 1)
                      (seeded_seats 1 1) = true) by (vm_compute; reflexivity).
  intro Hs. apply Nat.eqb_eq. exact (proj1 (forallb_forall _ _) H s Hs).
Qed.

Section SeatGrid.

Variable generate_password_hash : string -> string -> string.
Variable check_password_hash : string -> string -> bool.

(** C6: every showtime created by seeding gets exactly 40 seats, one per
    label of the grid A1..E8 in that order, each of that showtime and
    unbooked; every seat of the store belongs to exactly one showtime. *)
Theorem seed_demo_data_seats clock salt d t :
  reachable generate_password_hash check_password_hash d ->
  movies d = [] ->
  let d1 := seed_demo_data generate_password_hash clock salt d in
  In t (showtimes d1) ->
  map (fun s => (seat_showtime_id s, seat_label s, is_booked s))
      (seats_of_showtime (showtime_id t) d1)
  = map (fun l => (showtime_id t, l, false)) grid_labels
  /\ List.length (seats_of_showtime (showtime_id t) d1) = 40
  /\ List.length grid_labels = 5 * 8
  /\ (forall s, In s (seats d1) ->
        count_occ Nat.eq_dec (map showtime_id (showtimes d1)) (seat_showtime_id s) = 1)
  /\ List.length (seats d1) = 40 * List.length (showtimes d1).
Proof.
  intros Hr Hm d1 Ht.
  apply reachable_ok in Hr.
  destruct (ok_catalog _ Hr) as [Hun|(Hm' & _)].
  2:{ rewrite Hm in Hm'. discriminate. }
  destruct (seed_unseeded generate_password_hash clock salt d Hun) as (_ & H2 & H3 & _).
  fold d1 in H2, H3.
  assert (Hk : In (showtime_id t) (seq 1 9)).
  { rewrite <- (seeded_showtime_ids clock), <- H2. apply in_map. exact Ht. }
  assert (Hseats : map (fun s => (seat_showtime_id s, seat_label s, is_booked s))
                       (seats_of_showtime (showtime_id t) d1)
                   = map (fun l => (showtime_id t, l, false)) grid_labels).
  { unfold seats_of_showtime. rewrite H3. apply seeded_seats_of. exact Hk. }
  split; [exact Hseats|]. split.
  { rewrite <- (length_map (fun s => (seat_showtime_id s, seat_label s, is_booked s))),
      Hseats, length_map. reflexivity. }
  split; [reflexivity|]. split.
  - intros s Hs. rewrite H2, seeded_showtime_ids. apply seeded_seats_showtime.
    rewrite <- H3. exact Hs.
  - rewrite H3, H2. rewrite <- (length_map showtime_id (seeded_showtimes clock 1 1)),
      seeded_showtime_ids. vm_compute. reflexivity.
Qed.

End SeatGrid.

(** ** Ordering and grouping *)

Section OrderByFacts.

Context {A : Type} (le : A -> A -> bool).
Hypothesis le_total : forall a b, le a b = true \/ le b a = true.

Lemma insert_sorted_perm x l : Permutation (insert_sorted le x l) (x :: l).
Proof.
  induction l as [|y l IH]; cbn [insert_sorted]; [reflexivity|].
  destruct (le x y); [reflexivity|].
  rewrite IH. apply perm_swap.
Qed.

Lemma order_by_perm l : Permutation (order_by le l) l.
Proof.
  induction l as [|x l IH]; cbn [order_by]; [reflexivity|].
  rewrite insert_sorted_perm, IH. reflexivity.
Qed.

Lemma insert_sorted_sorted x l :
  Sorted (fun a b => le a b = true) l ->
  Sorted (fun a b => le a b = true) (insert_sorted le x l).
Proof.
  induction 1 as [|y l Hs IH Hd]; cbn [insert_sorted].
  - repeat constructor.
  - destruct (le x y) eqn:E.
    + constructor; [constructor; assumption|constructor; exact E].
    + constructor; [exact IH|].
      destruct l as [|z l]; cbn [insert_sorted].
      * constructor. destruct (le_total x y) as [H|H]; [congruence|exact H].
      * inversion Hd; subst. destruct (le x z); constructor; [|assumption].
        destruct (le_total x y) as [H|H]; [congruence|exact H].
Qed.

Lemma order_by_sorted l : Sorted (fun a b => le a b = true) (order_by le l).
Proof.
  induction l as [|x l IH]; cbn [order_by]; [constructor|].
  apply insert_sorted_sorted. exact IH.
Qed.

End OrderByFacts.

Lemma order_by_sorted_id {A : Type} (le : A -> A -> bool) (l : list A) :
  Sorted (fun a b => le a b = true) l -> order_by le l = l.
Proof.
  induction 1 as [|x l Hs IH Hd]; cbn [order_by]; [reflexivity|].
  rewrite IH. destruct Hd as [|y r Hxy]; cbn [insert_sorted]; [reflexivity|].
  rewrite Hxy. reflexivity.
Qed.

Lemma Sorted_of_map {A B : Type} (f : A -> B) (R : B -> B -> Prop) (l : list A) :
  Sorted R (map f l) -> Sorted (fun a b => R (f a) (f b)) l.
Proof.
  induction l as [|x l IH]; cbn [map]; intro H; [constructor|].
  inversion H as [|? ? Hs Hd]; subst. constructor; [apply IH; exact Hs|].
  destruct l as [|y l]; constructor. inversion Hd; subst. assumption.
Qed.

Lemma grid_labels_sorted : Sorted (fun a b => String.leb a b = true) grid_labels.
Proof. repeat constructor. Qed.

Lemma label_asc_total a b : label_asc a b = true \/ label_asc b a = true.
Proof. apply String.leb_total. Qed.

Lemma in_row_iff k s : in_row k s = true <-> Text.first_char (seat_label s) = Some k.
Proof.
  unfold in_row. destruct (Text.first_char (seat_label s)) as [k'|].
  - rewrite String.eqb_eq. split; congruence.
  - split; discriminate.
Qed.

Lemma row_of_setdefault k k' s rows :
  row_of k (setdefault_append k' s rows)
  = if String.eqb k' k then row_of k rows ++ [s] else row_of k rows.
Proof.
  induction rows as [|[k0 l] rows IH]; cbn [setdefault_append row_of].
  - destruct (String.eqb k' k); reflexivity.
  - destruct (String.eqb k0 k') eqn:E0; cbn [row_of].
    + apply String.eqb_eq in E0; subst k0.
      destruct (String.eqb k' k); reflexivity.
    + destruct (String.eqb k0 k) eqn:E1; [|exact IH].
      apply String.eqb_eq in E1; subst k0. rewrite String.eqb_sym, E0. reflexivity.
Qed.

Lemma setdefault_keys k s rows :
  NoDup (map fst rows) ->
  NoDup (map fst (setdefault_append k s rows))
  /\ (forall x, In x (map fst (setdefault_append k s rows)) <-> x = k \/ In x (map fst rows)).
Proof.
  induction rows as [|[k0 l] rows IH]; cbn [setdefault_append map fst]; intro Hnd.
  - split; [repeat constructor; intros []|]. intro x. cbn [In]. intuition congruence.
  - inversion Hnd as [|? ? Hni Hnd']; subst.
    destruct (String.eqb k0 k) eqn:E; cbn [map fst].
    + apply String.eqb_eq in E; subst k0. split; [exact Hnd|].
      intro x. cbn [In]. intuition congruence.
    + destruct (IH Hnd') as [IH1 IH2]. apply String.eqb_neq in E. split.
      * constructor; [|exact IH1]. rewrite IH2. intros [->|H]; [congruence|exact (Hni H)].
      * intro x. cbn [In]. rewrite IH2. tauto.
Qed.

Lemma setdefault_rows k s rows :
  Forall (fun kv => snd kv <> []) rows ->
  Forall (fun kv => snd kv <> []) (setdefault_append k s rows).
Proof.
  induction 1 as [|[k0 l] rows H0 H IH]; cbn [setdefault_append].
  - repeat constructor. discriminate.
  - destruct (String.eqb k0 k); constructor; try assumption.
    cbn [snd]. destruct l; discriminate.
Qed.

Lemma setdefault_concat k s rows :
  Permutation (List.concat (map snd (setdefault_append k s rows))) (s :: List.concat (map snd rows)).
Proof.
  induction rows as [|[k0 l] rows IH]; cbn [setdefault_append map snd List.concat].
  - reflexivity.
  - destruct (String.eqb k0 k); cbn [map snd List.concat].
    + rewrite <- app_assoc. symmetry. apply Permutation_middle.
    + rewrite IH. symmetry. apply Permutation_middle.
Qed.

(** The loop of [showtime_detail], from any dict built so far. *)
Lemma organize_rows_spec fetched : forall acc rows,
  organize_rows fetched acc = Some rows ->
  NoDup (map fst acc) ->
  Forall (fun kv => snd kv <> []) acc ->
  (forall k, row_of k rows = row_of k acc ++ filter (in_row k) fetched)
  /\ NoDup (map fst rows)
  /\ Forall (fun kv => snd kv <> []) rows
  /\ Permutation (List.concat (map snd rows)) (List.concat (map snd acc) ++ fetched).
Proof.
  induction fetched as [|s fetched IH]; cbn [organize_rows]; intros acc rows H Hnd Hne.
  - injection H as <-. repeat split; try assumption.
    + intro k. cbn [filter]. rewrite app_nil_r. reflexivity.
    + rewrite app_nil_r. reflexivity.
  - destruct (Text.first_char (seat_label s)) as [k0|] eqn:E; [|discriminate].
    destruct (IH _ _ H (proj1 (setdefault_keys k0 s acc Hnd)) (setdefault_rows k0 s acc Hne))
      as (H1 & H2 & H3 & H4).
    repeat split; try assumption.
    + intro k. rewrite H1, row_of_setdefault. cbn [filter]. unfold in_row at 2. rewrite E.
      destruct (String.eqb k0 k); [rewrite <- app_assoc|]; reflexivity.
    + rewrite H4, setdefault_concat. cbn [app]. apply Permutation_middle.
Qed.

Lemma organize_rows_total fetched : forall acc,
  Forall (fun s => seat_label s <> EmptyString) fetched ->
  exists rows, organize_rows fetched acc = Some rows.
Proof.
  induction fetched as [|s fetched IH]; intros acc H; cbn [organize_rows].
  - eexists; reflexivity.
  - inversion H as [|? ? Hs Hf]; subst.
    destruct (seat_label s) as [|c r]; [contradiction|]. cbn [Text.first_char].
    apply IH. exact Hf.
Qed.

Lemma row_of_In k row rows :
  NoDup (map fst rows) -> In (k, row) rows -> row_of k rows = row.
Proof.
  induction rows as [|[k0 l] rows IH]; cbn [map fst row_of]; intros Hnd Hin; [destruct Hin|].
  inversion Hnd as [|? ? Hni Hnd']; subst.
  destruct Hin as [Heq|Hin].
  - injection Heq as -> ->. rewrite String.eqb_refl. reflexivity.
  - destruct (String.eqb k0 k) eqn:E; [|apply IH; assumption].
    apply String.eqb_eq in E; subst k0. exfalso. apply Hni.
    apply in_map_iff. exists (k, row). split; [reflexivity|exact Hin].
Qed.

Lemma grid_labels_nonempty : Forall (fun l => l <> EmptyString) grid_labels.
Proof. repeat constructor; discriminate. Qed.

Section SeatMap.

Variable generate_password_hash : string -> string -> string.
Variable check_password_hash : string -> string -> bool.

(** C7: for an existing showtime whose seats have non-empty labels, in
    any store, and for every showtime of a reachable store, the seat map
    fetches the seats of that showtime in ascending label order and
    groups them by the first letter of the label: the fetched list is a
    sorted permutation of the showtime's seats, the rows have distinct
    keys, each row is the fetched list restricted to the labels starting
    with its key, in the fetched order, the rows together hold every
    fetched seat once, and the store and the login session are returned
    unchanged.  In a reachable store the fetched labels are A1..A8, B1..,
    up to E8, so columns ascend within each row. *)
Theorem showtime_detail_groups_rows k d login t :
  get_showtime k d = Some t ->
  (Forall (fun s => seat_label s <> EmptyString) (seats_of_showtime (showtime_id t) d)
   \/ reachable generate_password_hash check_password_hash d) ->
  let fetched := fetch_seat_map (showtime_id t) d in
  exists rows,
    showtime_detail k d login = mkResult d login [] (Render (showtime_html t rows))
    /\ Permutation fetched (seats_of_showtime (showtime_id t) d)
    /\ Sorted (fun a b => String.leb (seat_label a) (seat_label b) = true) fetched
    /\ NoDup (map fst rows)
    /\ (forall key row, In (key, row) rows ->
          row <> [] /\ row = filter (in_row key) fetched)
    /\ (forall s, In s fetched ->
          exists key, Text.first_char (seat_label s) = Some key /\ In s (row_of key rows))
    /\ Permutation (List.concat (map snd rows)) fetched
    /\ (reachable generate_password_hash check_password_hash d ->
        map seat_label fetched = grid_labels).
Proof.
  intros Ht Hlabels fetched.
  assert (Hgrid : reachable generate_password_hash check_password_hash d ->
            map seat_label (seats_of_showtime (showtime_id t) d) = grid_labels).
  { intro Hr. apply reachable_ok in Hr. destruct (ok_catalog _ Hr) as [Hun|Hc].
    - rewrite (unseeded_no_showtime d k Hun) in Ht. discriminate.
    - apply (seeded_catalog_grid d t Hc (proj1 (get_showtime_Some k d t Ht))). }
  assert (Hstored : Forall (fun s => seat_label s <> EmptyString)
                           (seats_of_showtime (showtime_id t) d)).
  { destruct Hlabels as [H|Hr]; [exact H|].
    apply Forall_forall. intros s Hs.
    apply (proj1 (Forall_forall _ _) grid_labels_nonempty).
    rewrite <- (Hgrid Hr). apply in_map. exact Hs. }
  assert (Hperm : Permutation fetched (seats_of_showtime (showtime_id t) d))
    by apply order_by_perm.
  assert (Hlab : Forall (fun s => seat_label s <> EmptyString) fetched).
  { apply Forall_forall. intros s Hs. apply (Permutation_in _ Hperm) in Hs.
    exact (proj1 (Forall_forall _ _) Hstored s Hs). }
  destruct (organize_rows_total fetched [] Hlab) as [rows Hrows].
  destruct (organize_rows_spec fetched [] rows Hrows) as (H1 & H2 & H3 & H4);
    [constructor|constructor|].
  exists rows. split.
  { unfold showtime_detail. rewrite Ht. fold fetched. rewrite Hrows. reflexivity. }
  split; [exact Hperm|]. split; [apply (order_by_sorted label_asc label_asc_total)|].
  split; [exact H2|]. split; [|split; [|split; [exact H4|]]].
  - intros key row Hin. split.
    + exact (proj1 (Forall_forall _ _) H3 (key, row) Hin).
    + rewrite <- (row_of_In key row rows H2 Hin). apply H1.
  - intros s Hs. pose proof (proj1 (Forall_forall _ _) Hlab s Hs) as Hne.
    destruct (seat_label s) as [|c r] eqn:E; [contradiction|].
    exists (String c EmptyString). split; [reflexivity|].
    rewrite H1. cbn [row_of app]. apply filter_In. split; [exact Hs|].
    apply in_row_iff. rewrite E. reflexivity.
  - intro Hr. unfold fetched, fetch_seat_map. rewrite order_by_sorted_id.
    + exact (Hgrid Hr).
    + apply (Sorted_of_map seat_label (fun a b => String.leb a b = true)).
      rewrite (Hgrid Hr). apply grid_labels_sorted.
Qed.

End SeatMap.

(** ** Accounts *)

Lemma is_empty_true s : Text.is_empty s = true <-> s = EmptyString.
Proof. destruct s; split; intro H; (reflexivity || discriminate). Qed.

Lemma is_empty_false s : Text.is_empty s = false <-> s <> EmptyString.
Proof. destruct s; split; intro H; try reflexivity; try discriminate; contradiction. Qed.

(** With unique emails, looking a stored user up by email finds that user. *)
Lemma user_by_email_stored d u :
  NoDup (map user_email (users d)) -> In u (users d) ->
  user_by_email (user_email u) d = Some u.
Proof.
  unfold user_by_email. induction (users d) as [|v us IH]; cbn [map find In]; intros Hnd Hin.
  - destruct Hin.
  - inversion Hnd as [|? ? Hni Hnd']; subst. destruct Hin as [->|Hin].
    + rewrite String.eqb_refl. reflexivity.
    + destruct (String.eqb (user_email v) (user_email u)) eqn:E; [|apply IH; assumption].
      apply String.eqb_eq in E. exfalso. apply Hni. rewrite E. apply in_map. exact Hin.
Qed.

Section Accounts.

Variable generate_password_hash : string -> string -> string.
Variable check_password_hash : string -> string -> bool.

(** C8, as the code has it: registration rejects a request whose name or
    email is empty once surrounding whitespace is stripped, or whose
    password is empty, and a request whose normalized email (stripped and
    lower-cased) is the normalized email of a stored user; it then flashes a
    warning and changes nothing.  Otherwise it adds exactly one user, who
    holds the stripped name, the normalized email and the salted hash of
    the password, which is not the password itself for a hash function
    that never returns the password it is given. *)
Theorem register_post_checks name email password salt d login :
  reachable generate_password_hash check_password_hash d ->
  (forall s p, generate_password_hash s p <> p) ->
  let r := register_post generate_password_hash name email password salt d login in
  ((Text.strip name = EmptyString \/ normalize_email email = EmptyString
    \/ password = EmptyString) ->
   r = mkResult d login [("All fields are required.", "warning")]
         (Render (register_html (Some (Text.strip name, normalize_email email)))))
  /\ ((exists u, In u (users d)
                 /\ normalize_email (user_email u) = normalize_email email) ->
      res_db r = d
      /\ exists msg, r = mkResult d login [(msg, "warning")]
                           (Render (register_html (Some (Text.strip name, normalize_email email)))))
  /\ (Text.strip name <> EmptyString -> normalize_email email <> EmptyString ->
      password <> EmptyString ->
      (forall u, In u (users d) -> normalize_email (user_email u) <> normalize_email email) ->
      exists u,
        res_db r = mkDB (users d ++ [u]) (movies d) (showtimes d) (seats d) (bookings d)
        /\ user_name u = Text.strip name
        /\ user_email u = normalize_email email
        /\ password_hash u = generate_password_hash salt password
        /\ password_hash u <> password
        /\ is_admin u = false
        /\ res_flashes r = [("Registration successful. Please log in.", "success")]
        /\ res_response r = Redirect ep_login).
Proof.
  intros Hr hash_differs r. apply reachable_ok in Hr. destruct Hr as [Hn Hu _ _].
  assert (Hstored : forall u, In u (users d) -> normalize_email (user_email u) = user_email u).
  { apply Forall_forall. exact Hn. }
  split; [|split].
  - intro H. unfold r, register_post.
    assert (E : Text.is_empty (Text.strip name) || Text.is_empty (normalize_email email)
                || Text.is_empty password = true).
    { rewrite !orb_true_iff, !is_empty_true. tauto. }
    rewrite E. reflexivity.
  - intros (u & Hin & He). unfold r, register_post.
    destruct (_ || _ || _); [split; [reflexivity|eexists; reflexivity]|].
    rewrite <- He, (Hstored u Hin), (user_by_email_stored d u Hu Hin).
    split; [reflexivity|eexists; reflexivity].
  - intros H1 H2 H3 Hfree. unfold r, register_post.
    apply is_empty_false in H1, H2, H3. rewrite H1, H2, H3. cbn [orb].
    assert (E : user_by_email (normalize_email email) d = None).
    { apply user_by_email_None. intro Hin. apply in_map_iff in Hin.
      destruct Hin as (u & He & Hin). apply (Hfree u Hin).
      rewrite (Hstored u Hin). exact He. }
    rewrite E. eexists. cbn [res_db res_flashes res_response committed commit on_working
                            working begin insert_user].
    split; [reflexivity|]. cbn [user_name user_email password_hash is_admin].
    repeat split. apply hash_differs.
Qed.

(** C9, as the code has it: login compares the stripped, lower-cased
    submitted email with the stored one, so every spelling of a stored
    user's email that strips and lower-cases to the stored email, with a
    password that verifies, logs that user in; and a login that fails, for
    an unknown email or for a password that does not verify, changes
    nothing and gives one and the same invalid-credentials response.  A
    spelling whose lower-casing equals that of the stored email is such a
    spelling. *)
Theorem login_post_normalizes_and_generic d login :
  reachable generate_password_hash check_password_hash d ->
  (forall u email password next,
      In u (users d) ->
      normalize_email email = user_email u ->
      check_password_hash (password_hash u) password = true ->
      let r := login_post check_password_hash email password next d login in
      res_db r = d
      /\ res_login r = Some (user_id u)
      /\ res_flashes r = [("Logged in successfully.", "success")]
      /\ exists target, res_response r = Redirect target)
  /\ (forall email password next,
        (user_by_email (normalize_email email) d = None
         \/ exists u, user_by_email (normalize_email email) d = Some u
                      /\ check_password_hash (password_hash u) password = false) ->
        login_post check_password_hash email password next d login
        = mkResult d login [("Invalid email or password.", "danger")] (Render login_html))
  /\ (forall email1 password1 next1 email2 password2 next2,
        res_response (login_post check_password_hash email1 password1 next1 d login)
          = Render login_html ->
        res_response (login_post check_password_hash email2 password2 next2 d login)
          = Render login_html ->
        login_post check_password_hash email1 password1 next1 d login
        = login_post check_password_hash email2 password2 next2 d login)
  /\ (forall u email,
        In u (users d) ->
        Text.lower email = Text.lower (user_email u) ->
        normalize_email email = user_email u).
Proof.
  intro Hr. apply reachable_ok in Hr. destruct Hr as [Hn Hu _ _].
  assert (Hfail : forall email password next,
            res_response (login_post check_password_hash email password next d login)
              = Render login_html ->
            login_post check_password_hash email password next d login
            = invalid_credentials d login).
  { intros email password next. unfold login_post.
    destruct (user_by_email _ d) as [u|]; [|reflexivity].
    destruct (check_password_hash _ _); [|reflexivity].
    cbn [res_response]. discriminate. }
  split; [|split; [|split]].
  - intros u email password next Hin Hcase Hpw r. unfold r, login_post.
    rewrite Hcase, (user_by_email_stored d u Hu Hin), Hpw.
    repeat split. eexists. reflexivity.
  - intros email password next [H|(u & H & Hpw)]; unfold login_post; rewrite H;
      [|rewrite Hpw]; reflexivity.
  - intros e1 p1 n1 e2 p2 n2 H1 H2.
    rewrite (Hfail e1 p1 n1 H1), (Hfail e2 p2 n2 H2). reflexivity.
  - intros u email Hin Hcase.
    apply (normalize_email_case email (user_email u)
             (proj1 (Forall_forall _ _) Hn u Hin) Hcase).
Qed.

End Accounts.

Section Duplicates.

Variable generate_password_hash : string -> string -> string.
Variable check_password_hash : string -> string -> bool.

(** C10: a request that names some label twice matches fewer seats than
    it has labels, so it is rejected and the store stays as it was; hence
    the labels recorded by any booking are pairwise distinct. *)
Theorem book_tickets_rejects_duplicate_labels now k sel d login :
  reachable generate_password_hash check_password_hash d ->
  ~ NoDup sel ->
  let r := book_tickets now k sel d login in
  res_db r = d
  /\ res_response r <> Redirect ep_my_bookings
  /\ (forall t, get_showtime k d = Some t ->
        List.length (seats_matching (showtime_id t) sel d) < List.length sel
        /\ forall u, current_user login d = Some u ->
             r = mkResult d login [seats_unavailable]
                          (Redirect (ep_showtime_detail (showtime_id t))))
  /\ Forall (fun b => NoDup (split_csv (seat_labels b))) (bookings d).
Proof.
  intros Hr Hdup r. apply reachable_ok in Hr.
  assert (Hsel : sel <> []) by (intros ->; apply Hdup; constructor).
  assert (Hlt : forall t, get_showtime k d = Some t ->
            List.length (seats_matching (showtime_id t) sel d) < List.length sel).
  { intros t Ht. destruct (ok_catalog _ Hr) as [Hun|Hc].
    { rewrite (unseeded_no_showtime d k Hun) in Ht. discriminate. }
    destruct (matched_count (showtime_id t) sel d) as [Hle Heq].
    { rewrite (seeded_catalog_grid d t Hc (proj1 (get_showtime_Some k d t Ht))).
      apply grid_labels_NoDup. }
    destruct (Nat.eq_dec (List.length (seats_matching (showtime_id t) sel d)) (List.length sel))
      as [E|E]; [|lia].
    exfalso. apply Hdup. apply (Heq E). }
  assert (Hrej : forall t, get_showtime k d = Some t ->
            res_db r = d
            /\ forall u, current_user login d = Some u ->
                 r = mkResult d login [seats_unavailable]
                              (Redirect (ep_showtime_detail (showtime_id t)))).
  { intros t Ht.
    destruct (book_tickets_rejected now k sel d login t Ht Hsel) as (H1 & _ & _ & H4).
    { left. specialize (Hlt t Ht). lia. }
    split; assumption. }
  split; [|split; [|split]].
  - destruct (get_showtime k d) as [t|] eqn:Ht; [apply (Hrej t eq_refl)|].
    unfold r, book_tickets. rewrite Ht. destruct (current_user login d); reflexivity.
  - destruct (get_showtime k d) as [t|] eqn:Ht.
    + intro Hc. destruct (book_tickets_confirmed_inv now k sel d login t Ht Hsel Hc)
        as (u & Hu & Hav).
      apply unavailable_false_len in Hav. specialize (Hlt t eq_refl). lia.
    + unfold r, book_tickets. rewrite Ht. destruct (current_user login d); discriminate.
  - intros t Ht. split; [apply Hlt; exact Ht|apply (Hrej t Ht)].
  - eapply Forall_impl; [|exact (ok_bookings _ Hr)]. intros b [H _]. exact H.
Qed.

End Duplicates.

(** ** Worked examples on the demo store *)

Lemma toy_hash_differs salt password : Demo.toy_hash salt password <> password.
Proof.
  unfold Demo.toy_hash. induction password as [|c p IH]; cbn [String.append].
  - discriminate.
  - intro H. injection H as H. exact (IH H).
Qed.

(** The seat A1 of the first showtime is booked, so asking for it again
    changes nothing. *)
Lemma book_tickets_rejects_unavailable_witness :
  res_db (book_tickets 78%Z 1 ["A1"] Demo.after_booking (Some 1)) = Demo.after_booking.
Proof.
  refine (proj1 (proj1 (book_tickets_rejects_unavailable 78%Z 1 ["A1"] Demo.after_booking
                          (Some 1) (mkShowtime 1 1 10800000000%Z 10%float) _ _) _)).
  - vm_compute. reflexivity.
  - discriminate.
  - right. exists (mkSeat 1 1 "A1" true). split; [vm_compute; left; reflexivity|].
    split; reflexivity.
Defined.

(** Two seats at 10.0 each cost 20.0. *)
Lemma book_tickets_confirms_witness :
  exists b,
    bookings (res_db (book_tickets 77%Z 1 ["A1"; "A2"] Demo.seeded (Some 1)))
    = bookings Demo.seeded ++ [b]
    /\ total_price b = 20%float
    /\ seat_labels b = "A1,A2".
Proof.
  destruct (book_tickets_confirms 77%Z 1 ["A1"; "A2"] Demo.seeded (Some 1)
              (mkUser 1 "Demo User" "demo@example.com" "password$s" true)
              (mkShowtime 1 1 10800000000%Z 10%float))
    as (_ & (b & Hb & Hp & Hl & _) & _).
  - vm_compute. reflexivity.
  - vm_compute. reflexivity.
  - discriminate.
  - vm_compute. reflexivity.
  - vm_compute. intros s [<-|[<-|[]]]; reflexivity.
  - exists b. split; [exact Hb|]. split; [exact Hp|exact Hl].
Defined.

(** Seeding the fresh store twice is seeding it once. *)
Lemma seed_demo_data_idempotent_witness :
  seed_demo_data Demo.toy_hash (fun _ => 0%Z) "t"
    (seed_demo_data Demo.toy_hash (fun _ => Demo.half_past_one) "s" empty_db)
  = seed_demo_data Demo.toy_hash (fun _ => Demo.half_past_one) "s" empty_db.
Proof.
  exact (proj1 (proj2 (seed_demo_data_idempotent Demo.toy_hash Demo.toy_check
                         (fun _ => Demo.half_past_one) "s" (fun _ => 0%Z) "t" empty_db))).
Defined.

(** Seeded at half past one, the first movie plays at three, six and nine. *)
Lemma seed_demo_data_showtimes_witness :
  exists m,
    nth_error (movies Demo.seeded) 0 = Some m
    /\ map (fun t => (start_time t, ticket_price t))
           (filter (fun t => st_movie_id t =? movie_id m) (showtimes Demo.seeded))
       = [ (Clock.timedelta_hours 3, 10%float);
           (Clock.timedelta_hours 6, 12%float);
           (Clock.timedelta_hours 9, 14%float) ].
Proof.
  eexists. split.
  - vm_compute. reflexivity.
  - refine (proj2 (seed_demo_data_showtimes Demo.toy_hash Demo.toy_check
                     (fun _ => Demo.half_past_one) "s" empty_db 0 _ _ _ _)).
    + apply reach_fresh.
    + reflexivity.
    + vm_compute. reflexivity.
Defined.

(** The first seeded showtime has the forty grid seats. *)
Lemma seed_demo_data_seats_witness :
  map (fun s => (seat_showtime_id s, seat_label s, is_booked s))
      (seats_of_showtime 1 Demo.seeded)
  = map (fun l => (1, l, false)) grid_labels.
Proof.
  refine (proj1 (seed_demo_data_seats Demo.toy_hash Demo.toy_check
                   (fun _ => Demo.half_past_one) "s" empty_db
                   (mkShowtime 1 1 10800000000%Z 10%float) _ _ _)).
  - apply reach_fresh.
  - reflexivity.
  - vm_compute. left. reflexivity.
Defined.

(** Seats stored as B1, A2, A1 are fetched as A1, A2, B1 and grouped
    into the rows A and B. *)
Lemma showtime_detail_groups_rows_witness :
  exists rows,
    showtime_detail 1 Unsorted.store None
    = mkResult Unsorted.store None []
        (Render (showtime_html (mkShowtime 1 1 0%Z 10%float) rows))
    /\ Sorted (fun a b => String.leb (seat_label a) (seat_label b) = true)
              (fetch_seat_map 1 Unsorted.store)
    /\ Permutation (List.concat (map snd rows)) (fetch_seat_map 1 Unsorted.store).
Proof.
  destruct (showtime_detail_groups_rows Demo.toy_hash Demo.toy_check 1 Unsorted.store None
              (mkShowtime 1 1 0%Z 10%float))
    as (rows & H1 & _ & H3 & _ & _ & _ & H7 & _).
  - vm_compute. reflexivity.
  - left. vm_compute. repeat constructor; discriminate.
  - exists rows. split; [exact H1|]. split; [exact H3|exact H7].
Defined.

(** A new account: the name is stripped and the email lower-cased. *)
Lemma register_post_checks_witness :
  exists u,
    res_db (register_post Demo.toy_hash " Ann " "Ann@Example.com" "secret" "pepper"
              Demo.seeded None)
    = mkDB (users Demo.seeded ++ [u]) (movies Demo.seeded) (showtimes Demo.seeded)
           (seats Demo.seeded) (bookings Demo.seeded)
    /\ user_name u = "Ann"
    /\ user_email u = "ann@example.com"
    /\ password_hash u <> "secret".
Proof.
  destruct (proj2 (proj2 (register_post_checks Demo.toy_hash Demo.toy_check
                            " Ann " "Ann@Example.com" "secret" "pepper" Demo.seeded None
                            ltac:(unfold Demo.seeded; apply reach_run, reach_fresh)
                            toy_hash_differs)))
    as (u & H1 & H2 & H3 & _ & H5 & _).
  - vm_compute. discriminate.
  - vm_compute. discriminate.
  - discriminate.
  - vm_compute. intros u [<-|[]]. discriminate.
  - exists u. repeat split; assumption.
Defined.

(** The demo user logs in with the email in capitals and a space after it. *)
Lemma login_post_normalizes_and_generic_witness :
  res_login (login_post Demo.toy_check "DEMO@Example.COM " "password" None Demo.seeded None)
  = Some 1.
Proof.
  refine (proj1 (proj2 (proj1 (login_post_normalizes_and_generic
                                 Demo.toy_hash Demo.toy_check Demo.seeded None _)
                          (mkUser 1 "Demo User" "demo@example.com" "password$s" true)
                          "DEMO@Example.COM " "password" None _ _ _))).
  - unfold Demo.seeded. apply reach_run, reach_fresh.
  - vm_compute. left. reflexivity.
  - vm_compute. reflexivity.
  - vm_compute. reflexivity.
Defined.

(** A user registered with a sharp s in the email cannot log in with the
    email in capitals: its capitals spell SS, which lower-cases to ss. *)
Lemma login_post_rejects_capitals_of_sharp_s :
  let d := res_db (register_post Demo.toy_hash "Fritz" sharp_s_email "geheim" "s"
                     Demo.seeded None) in
  (exists u, In u (users d) /\ user_email u = sharp_s_email
             /\ Demo.toy_check (password_hash u) "geheim" = true)
  /\ upper sharp_s_email = Some "STRASSE@X.DE"
  /\ login_post Demo.toy_check "STRASSE@X.DE" "geheim" None d None
     = mkResult d None [("Invalid email or password.", "danger")] (Render login_html).
Proof.
  cbv zeta. split; [|split].
  - exists (mkUser 2 "Fritz" sharp_s_email "geheim$s" false).
    split; [vm_compute; right; left; reflexivity|]. split; reflexivity.
  - vm_compute. reflexivity.
  - vm_compute. reflexivity.
Qed.

(** Asking for A3 twice in one request is refused. *)
Lemma book_tickets_rejects_duplicate_labels_witness :
  res_db (book_tickets 79%Z 1 ["A3"; "A3"] Demo.seeded (Some 1)) = Demo.seeded.
Proof.
  refine (proj1 (book_tickets_rejects_duplicate_labels Demo.toy_hash Demo.toy_check
                   79%Z 1 ["A3"; "A3"] Demo.seeded (Some 1) _ _)).
  - unfold Demo.seeded. apply reach_run, reach_fresh.
  - intro H. inversion H as [|x l Hni _]. apply Hni. left. reflexivity.
Defined.

(** A name of one space is not empty, the email is new and the password
    is given, yet no user is created. *)
Lemma register_post_rejects_blank_name :
  let r := register_post Demo.toy_hash " " "new@example.com" "secret" "pepper"
             Demo.seeded None in
  " " <> EmptyString
  /\ "new@example.com" <> EmptyString
  /\ "secret" <> EmptyString
  /\ (forall u, In u (users Demo.seeded) ->
        normalize_email (user_email u) <> normalize_email "new@example.com")
  /\ res_db r = Demo.seeded
  /\ res_flashes r = [("All fields are required.", "warning")].
Proof.
  cbv zeta. repeat split; try discriminate.
  vm_compute. intros u [<-|[]]. discriminate.
Qed.

(** * Further properties of the handlers *)

(** ** Seat creation for any grid *)

Lemma fresh_seats_length base sid labels :
  List.length (fresh_seats base sid labels) = List.length labels.
Proof. rewrite <- (length_map seat_id), fresh_seats_ids. apply length_seq. Qed.

Lemma fresh_seats_fields base sid labels :
  map (fun s => (seat_showtime_id s, seat_label s, is_booked s)) (fresh_seats base sid labels)
  = map (fun l => (sid, l, false)) labels.
Proof.
  revert base; induction labels as [|l labels IH]; intro base; cbn [fresh_seats map];
    [|rewrite IH]; reflexivity.
Qed.

Lemma grid_labels_of_length rows cols : List.length (grid_labels_of rows cols) = rows * cols.
Proof.
  unfold grid_labels_of.
  assert (H : forall n start,
            List.length (flat_map (fun r => map (grid_label r) (seq 1 cols)) (seq start n))
            = n * cols).
  { induction n as [|n IH]; intro start; cbn [seq flat_map]; [reflexivity|].
    rewrite length_app, length_map, length_seq, IH. reflexivity. }
  apply H.
Qed.

Lemma str_of_nat_inj a b : Text.str_of_nat a = Text.str_of_nat b -> a = b.
Proof.
  unfold Text.str_of_nat. intro H.
  apply DecimalNat.Unsigned.to_uint_inj.
  assert (E : Some (Nat.to_uint a) = Some (Nat.to_uint b)).
  { rewrite <- !NilEmpty.usu. rewrite H. reflexivity. }
  injection E as E. exact E.
Qed.

Lemma grid_label_inj r c r' c' :
  r < 191 -> r' < 191 -> grid_label r c = grid_label r' c' -> r = r' /\ c = c'.
Proof.
  intros Hr Hr' H.
  assert (Hd : forall n k, grid_label n k
                 = String (ascii_of_nat (Text.ord_A + n)) (Text.str_of_nat k)) by reflexivity.
  rewrite !Hd in H. split.
  - apply (f_equal (fun s => match s with String a _ => nat_of_ascii a | EmptyString => 0 end))
      in H.
    unfold Text.ord_A in H. rewrite !nat_ascii_embedding in H by lia. lia.
  - apply (f_equal (fun s => match s with String _ t => t | EmptyString => EmptyString end))
      in H.
    apply str_of_nat_inj. exact H.
Qed.

Lemma grid_labels_of_In rows cols l :
  In l (grid_labels_of rows cols)
  <-> exists r c, r < rows /\ 1 <= c <= cols /\ l = grid_label r c.
Proof.
  unfold grid_labels_of. rewrite in_flat_map. split.
  - intros (r & Hr & Hl). apply in_map_iff in Hl. destruct Hl as (c & <- & Hc).
    apply in_seq in Hr, Hc. exists r, c. repeat split; lia.
  - intros (r & c & Hr & Hc & ->). exists r. split; [apply in_seq; lia|].
    apply in_map. apply in_seq. lia.
Qed.

Lemma grid_row_NoDup r cs : r < 191 -> NoDup cs -> NoDup (map (grid_label r) cs).
Proof.
  intros Hr Hc. induction Hc as [|c cs Hni Hnd IH]; cbn [map]; constructor; [|exact IH].
  intro Hin. apply in_map_iff in Hin. destruct Hin as (c' & E & Hc').
  apply grid_label_inj in E; [|lia|lia]. destruct E as [_ ->]. exact (Hni Hc').
Qed.

Lemma grid_labels_of_NoDup rows cols : rows <= 191 -> NoDup (grid_labels_of rows cols).
Proof.
  unfold grid_labels_of. intro Hrows.
  assert (H : forall n start, start + n <= 191 ->
            NoDup (flat_map (fun r => map (grid_label r) (seq 1 cols)) (seq start n))
            /\ forall l, In l (flat_map (fun r => map (grid_label r) (seq 1 cols)) (seq start n)) ->
                 exists r c, start <= r < start + n /\ l = grid_label r c).
  { induction n as [|n IH]; intros start Hs; cbn [seq flat_map].
    - split; [constructor|intros l []].
    - destruct (IH (S start)) as [IH1 IH2]; [lia|]. split.
      + apply NoDup_app; [|exact IH1|].
        * apply grid_row_NoDup; [lia|apply seq_NoDup].
        * intros l Hl Hl'. apply in_map_iff in Hl. destruct Hl as (c & <- & _).
          destruct (IH2 _ Hl') as (r' & c' & Hr' & E).
          apply grid_label_inj in E; [|lia|lia]. lia.
      + intros l Hl. apply in_app_or in Hl. destruct Hl as [Hl|Hl].
        * apply in_map_iff in Hl. destruct Hl as (c & <- & _). exists start, c. split; [lia|reflexivity].
        * destruct (IH2 _ Hl) as (r & c & Hr & E). exists r, c. split; [lia|exact E]. }
  apply (H rows 0). lia.
Qed.

(** X1: for any store and any grid of up to 191 rows (the letters
    [chr(65 + r)] stay below code point 256), [create_seats_for_showtime]
    appends exactly rows * cols seats after the existing ones and changes
    no other table; the new seats all belong to the given showtime, are
    unbooked, carry the grid labels row by row, and take consecutive keys
    above every key in use. *)
Theorem create_seats_for_showtime_appends sid rows cols d :
  rows <= 191 ->
  let d' := create_seats_for_showtime sid rows cols d in
  exists added,
    seats d' = seats d ++ added
    /\ users d' = users d /\ movies d' = movies d
    /\ showtimes d' = showtimes d /\ bookings d' = bookings d
    /\ List.length added = rows * cols
    /\ map (fun s => (seat_showtime_id s, seat_label s, is_booked s)) added
       = map (fun l => (sid, l, false)) (grid_labels_of rows cols)
    /\ map seat_id added = seq (next_id (map seat_id (seats d))) (rows * cols)
    /\ (forall s s', In s (seats d) -> In s' added -> seat_id s < seat_id s').
Proof.
  intros _ d'. unfold d'. rewrite create_seats_eq. fold (grid_labels_of rows cols).
  cbn [users movies showtimes seats bookings]. eexists. split; [reflexivity|].
  repeat split.
  - rewrite fresh_seats_length. apply grid_labels_of_length.
  - apply fresh_seats_fields.
  - rewrite fresh_seats_ids, grid_labels_of_length. reflexivity.
  - intros s s' Hs Hs'. apply (in_map seat_id) in Hs, Hs'.
    rewrite fresh_seats_ids in Hs'. apply in_seq in Hs'.
    assert (seat_id s < next_id (map seat_id (seats d))); [|lia].
    unfold next_id. clear Hs'. induction (map seat_id (seats d)) as [|x l IH]; [destruct Hs|].
    cbn [fold_right]. destruct Hs as [->|Hs]; [lia|]. specialize (IH Hs). lia.
Qed.

(** X2: for up to 191 rows (the letters [chr(65 + r)] stay below code
    point 256) the seats [create_seats_for_showtime] adds carry pairwise
    distinct labels, each a row letter followed by a column number between
    1 and cols. *)
Theorem create_seats_for_showtime_distinct_labels sid rows cols d :
  rows <= 191 ->
  exists added,
    seats (create_seats_for_showtime sid rows cols d) = seats d ++ added
    /\ NoDup (map seat_label added)
    /\ (forall s, In s added ->
          exists r c, r < rows /\ 1 <= c <= cols
                      /\ seat_label s = (Text.chr (65 + r) ++ Text.str_of_nat c)%string).
Proof.
  intro Hrows. rewrite create_seats_eq. fold (grid_labels_of rows cols).
  cbn [seats]. eexists. split; [reflexivity|].
  assert (Hl : forall base labels, map seat_label (fresh_seats base sid labels) = labels).
  { intros base labels; revert base; induction labels as [|l labels IH]; intro base;
      cbn [fresh_seats map seat_label]; [|rewrite IH]; reflexivity. }
  split.
  - rewrite Hl. apply grid_labels_of_NoDup. exact Hrows.
  - intros s Hs. apply (in_map seat_label) in Hs. rewrite Hl in Hs.
    apply grid_labels_of_In in Hs. exact Hs.
Qed.

(** ** Sessions and protected routes *)

Lemma get_user_Some k d u : get_user k d = Some u -> In u (users d) /\ user_id u = k.
Proof.
  unfold get_user. intro H. apply find_some in H. destruct H as [Hin Hk].
  apply Nat.eqb_eq in Hk. split; assumption.
Qed.

Lemma get_user_None k d : get_user k d = None <-> ~ In k (map user_id (users d)).
Proof.
  unfold get_user. split.
  - intros H Hin. apply in_map_iff in Hin. destruct Hin as (u & Hk & Hu).
    apply (find_none _ _ H) in Hu. rewrite Hk, Nat.eqb_refl in Hu. discriminate.
  - intro H. destruct (find _ (users d)) as [u|] eqn:E; [|reflexivity].
    apply find_some in E. destruct E as [Hu Hk]. apply Nat.eqb_eq in Hk.
    exfalso. apply H. apply in_map_iff. exists u. split; assumption.
Qed.

Lemma booked_at_desc_total a b : booked_at_desc a b = true \/ booked_at_desc b a = true.
Proof. unfold booked_at_desc. rewrite !Z.leb_le. lia. Qed.

(** X3: for a logged-in user the booking history shows exactly the
    bookings whose user id is that user's, each once, newest first, and
    leaves the store and the session as they were. *)
Theorem my_bookings_lists_own_bookings d login u :
  current_user login d = Some u ->
  exists shown,
    my_bookings d login = mkResult d login [] (Render (bookings_html shown))
    /\ Permutation shown (filter (fun b => bk_user_id b =? user_id u) (bookings d))
    /\ (forall b, In b shown <-> In b (bookings d) /\ bk_user_id b = user_id u)
    /\ Sorted (fun a b => (booked_at b <= booked_at a)%Z) shown.
Proof.
  intro Hu. unfold my_bookings. rewrite Hu. eexists. split; [reflexivity|].
  set (own := filter (fun b => bk_user_id b =? user_id u) (bookings d)).
  assert (Hp : Permutation (order_by booked_at_desc own) own) by apply order_by_perm.
  split; [exact Hp|]. split.
  - intro b. split.
    + intro Hb. apply (Permutation_in _ Hp) in Hb. apply filter_In in Hb.
      rewrite Nat.eqb_eq in Hb. exact Hb.
    + intros [Hb Hk]. apply (Permutation_in _ (Permutation_sym Hp)).
      apply filter_In. rewrite Nat.eqb_eq. split; assumption.
  - pose proof (order_by_sorted booked_at_desc booked_at_desc_total own) as Hs.
    eapply Sorted_ind with (P := fun l => Sorted (fun a b => (booked_at b <= booked_at a)%Z) l);
      [constructor| |exact Hs].
    intros a l _ IH Hd. constructor; [exact IH|].
    destruct Hd as [|b l' Hab]; constructor. apply Z.leb_le. exact Hab.
Qed.

(** X4: without a session, or with a session id that belongs to no
    stored user, the protected routes (booking, history, logout) do
    nothing but redirect to the login page. *)
Theorem protected_routes_need_a_stored_user now k sel d login :
  (login = None \/ exists i, login = Some i /\ ~ In i (map user_id (users d))) ->
  book_tickets now k sel d login = unauthorized d login
  /\ my_bookings d login = unauthorized d login
  /\ logout d login = unauthorized d login
  /\ res_db (unauthorized d login) = d
  /\ res_response (unauthorized d login) = Redirect ep_login.
Proof.
  intro H. assert (Hu : current_user login d = None).
  { destruct H as [->|(i & -> & Hi)]; [reflexivity|]. apply get_user_None. exact Hi. }
  repeat split.
  - apply book_tickets_anonymous. exact Hu.
  - unfold my_bookings. rewrite Hu. reflexivity.
  - unfold logout. rewrite Hu. reflexivity.
Qed.

(** A confirmed booking passed every check. *)
Lemma book_tickets_confirmed now k sel d login :
  res_response (book_tickets now k sel d login) = Redirect ep_my_bookings ->
  exists u t, current_user login d = Some u /\ get_showtime k d = Some t
              /\ sel <> [] /\ unavailable (showtime_id t) sel d = false.
Proof.
  destruct (current_user login d) as [u|] eqn:Hu.
  2:{ rewrite book_tickets_anonymous by exact Hu. discriminate. }
  destruct (get_showtime k d) as [t|] eqn:Ht.
  2:{ unfold book_tickets. rewrite Hu, Ht. discriminate. }
  destruct sel as [|x sel].
  { unfold book_tickets. rewrite Hu, Ht. discriminate. }
  assert (Hsel : x :: sel <> []) by discriminate.
  rewrite (book_tickets_cases now k (x :: sel) d login u t Hu Ht Hsel).
  destruct (unavailable (showtime_id t) (x :: sel) d) eqn:Hav; [discriminate|].
  intros _. exists u, t. repeat split; assumption || reflexivity.
Qed.

(** X5: [book_tickets] never changes the login session and changes
    the store only when it answers with the confirmation redirect, which
    it does only for a logged-in user, an existing showtime, a non-empty
    selection and a passed availability check; a missing showtime gives
    404 when the key is one SQLite can bind, and an empty selection a
    warning. *)
Theorem book_tickets_outcomes now k sel d login :
  let r := book_tickets now k sel d login in
  res_login r = login
  /\ (res_response r <> Redirect ep_my_bookings -> res_db r = d)
  /\ (res_response r = Redirect ep_my_bookings ->
      exists u t, current_user login d = Some u /\ get_showtime k d = Some t
                  /\ sel <> [] /\ unavailable (showtime_id t) sel d = false)
  /\ (forall u, current_user login d = Some u -> get_showtime k d = None ->
        sqlite_key k ->
        r = mkResult d login [] NotFound)
  /\ (forall u t, current_user login d = Some u -> get_showtime k d = Some t -> sel = [] ->
        r = mkResult d login [("Please select at least one seat.", "warning")]
                     (Redirect (ep_showtime_detail (showtime_id t)))).
Proof.
  intro r. unfold r.
  destruct (current_user login d) as [u|] eqn:Hu.
  2:{ rewrite book_tickets_anonymous by exact Hu.
      repeat split; try reflexivity; try discriminate. }
  destruct (get_showtime k d) as [t|] eqn:Ht.
  2:{ unfold book_tickets. rewrite Hu, Ht. repeat split; try reflexivity; discriminate. }
  destruct sel as [|x sel].
  { unfold book_tickets. rewrite Hu, Ht. repeat split; try reflexivity; try discriminate.
    intros u' t' _ E _. injection E as <-. reflexivity. }
  assert (Hsel : x :: sel <> []) by discriminate.
  rewrite (book_tickets_cases now k (x :: sel) d login u t Hu Ht Hsel).
  destruct (unavailable (showtime_id t) (x :: sel) d) eqn:Hav;
    cbn [res_login res_db res_response].
  - repeat split; try reflexivity; try discriminate.
  - repeat split; try discriminate.
    + intro H. exfalso. apply H. reflexivity.
    + intros _. exists u, t. repeat split; assumption || reflexivity.
Qed.

(** ** Lookups by key *)

Lemma find_app_None {A : Type} (f : A -> bool) (l l' : list A) :
  find f l = None -> find f (l ++ l') = find f l'.
Proof.
  induction l as [|x l IH]; cbn [find app]; [reflexivity|].
  destruct (f x); [discriminate|exact IH].
Qed.

Lemma find_app_Some {A : Type} (f : A -> bool) (l l' : list A) x :
  find f l = Some x -> find f (l ++ l') = Some x.
Proof.
  induction l as [|y l IH]; cbn [find app]; [discriminate|].
  destruct (f y); [trivial|exact IH].
Qed.

(** X15: for a key SQLite can bind, the movie and showtime pages answer
    404 exactly when no row has the requested key; a rendered page shows
    a stored row with that key; neither page changes the store or the
    session or flashes a message. *)
Theorem detail_pages_not_found k d login :
  sqlite_key k ->
  (res_response (movie_detail k d login) = NotFound <-> ~ In k (map movie_id (movies d)))
  /\ (forall m, res_response (movie_detail k d login) = Render (movie_detail_html m) ->
        In m (movies d) /\ movie_id m = k)
  /\ (res_response (showtime_detail k d login) = NotFound
      <-> ~ In k (map showtime_id (showtimes d)))
  /\ (forall t rows, res_response (showtime_detail k d login) = Render (showtime_html t rows) ->
        In t (showtimes d) /\ showtime_id t = k)
  /\ movie_detail k d login
     = mkResult d login [] (res_response (movie_detail k d login))
  /\ showtime_detail k d login
     = mkResult d login [] (res_response (showtime_detail k d login)).
Proof.
  intros _. unfold movie_detail, showtime_detail, get_movie, get_showtime.
  split; [|split; [|split; [|split; [|split]]]].
  - destruct (find _ (movies d)) as [m|] eqn:E; cbn [res_response].
    + split; [discriminate|]. intro H. exfalso. apply H.
      apply find_some in E. destruct E as [Hin Hk]. apply Nat.eqb_eq in Hk.
      rewrite <- Hk. apply in_map. exact Hin.
    + split; [|reflexivity]. intros _ Hin. apply in_map_iff in Hin.
      destruct Hin as (m & Hk & Hm). apply (find_none _ _ E) in Hm.
      rewrite Hk, Nat.eqb_refl in Hm. discriminate.
  - intros m. destruct (find _ (movies d)) as [m'|] eqn:E; cbn [res_response]; [|discriminate].
    intro H. injection H as <-. apply find_some in E. rewrite Nat.eqb_eq in E. exact E.
  - destruct (find _ (showtimes d)) as [t|] eqn:E.
    + split.
      * destruct (organize_rows _ _); discriminate.
      * intro H. exfalso. apply H.
        apply find_some in E. destruct E as [Hin Hk]. apply Nat.eqb_eq in Hk.
        rewrite <- Hk. apply in_map. exact Hin.
    + cbn [res_response]. split; [|reflexivity]. intros _ Hin. apply in_map_iff in Hin.
      destruct Hin as (t & Hk & Ht). apply (find_none _ _ E) in Ht.
      rewrite Hk, Nat.eqb_refl in Ht. discriminate.
  - intros t rows. destruct (find _ (showtimes d)) as [t'|] eqn:E; [|discriminate].
    destruct (organize_rows _ _); cbn [res_response]; [|discriminate].
    intro H. injection H as <- _. apply find_some in E. rewrite Nat.eqb_eq in E. exact E.
  - destruct (find _ (movies d)); reflexivity.
  - destruct (find _ (showtimes d)); [|reflexivity]. destruct (organize_rows _ _); reflexivity.
Qed.

(** X14: a confirmed booking is the last row of the booking table,
    carries the requested labels and the request time, and appears in the
    history of the user who made it. *)
Theorem booking_appears_in_history now k sel d login :
  res_response (book_tickets now k sel d login) = Redirect ep_my_bookings ->
  let d1 := res_db (book_tickets now k sel d login) in
  exists b shown,
    bookings d1 = bookings d ++ [b]
    /\ seat_labels b = Text.join "," sel
    /\ booked_at b = now
    /\ my_bookings d1 login = mkResult d1 login [] (Render (bookings_html shown))
    /\ In b shown.
Proof.
  intros Hok d1.
  destruct (book_tickets_confirmed now k sel d login Hok) as (u & t & Hu & Ht & Hsel & Hav).
  assert (Hd1 : d1 = booked_db (seats_matching (showtime_id t) sel d) (user_id u) (showtime_id t)
                      (Text.join "," sel)
                      (PrimFloat.mul (ticket_price t) (float_of_nat (List.length sel))) now d).
  { unfold d1. rewrite (book_tickets_cases now k sel d login u t Hu Ht Hsel), Hav. reflexivity. }
  assert (Hu1 : current_user login d1 = Some u) by (rewrite Hd1; exact Hu).
  eexists _, _. rewrite Hd1 at 1. cbn [bookings booked_db].
  split; [reflexivity|]. split; [reflexivity|]. split; [reflexivity|]. split.
  { unfold my_bookings. rewrite Hu1. reflexivity. }
  apply (Permutation_in _ (Permutation_sym (order_by_perm booked_at_desc _))).
  apply filter_In. split; [|apply Nat.eqb_refl].
  rewrite Hd1. cbn [bookings booked_db]. apply in_or_app. right. left. reflexivity.
Qed.

Section AccountFlows.

Variable generate_password_hash : string -> string -> string.
Variable check_password_hash : string -> string -> bool.

(** What a registration that redirects to the login page has done. *)
Lemma register_post_accepted name email password salt d login :
  res_response (register_post generate_password_hash name email password salt d login)
  = Redirect ep_login ->
  Text.strip name <> EmptyString /\ normalize_email email <> EmptyString
  /\ password <> EmptyString
  /\ user_by_email (normalize_email email) d = None
  /\ res_db (register_post generate_password_hash name email password salt d login)
     = insert_user (Text.strip name) (normalize_email email)
                   (generate_password_hash salt password) false d.
Proof.
  unfold register_post.
  destruct (Text.is_empty (Text.strip name)) eqn:E1; [discriminate|].
  destruct (Text.is_empty (normalize_email email)) eqn:E2; [discriminate|].
  destruct (Text.is_empty password) eqn:E3; [discriminate|]. cbn [orb].
  destruct (user_by_email (normalize_email email) d) eqn:E; [discriminate|].
  intros _. apply is_empty_false in E1, E2, E3. repeat split; assumption.
Qed.

Lemma user_by_email_inserted name email hash admin d :
  user_by_email email d = None ->
  user_by_email email (insert_user name email hash admin d)
  = Some (mkUser (next_id (map user_id (users d))) name email hash admin).
Proof.
  unfold user_by_email. intro H. cbn [users insert_user].
  rewrite (find_app_None _ _ _ H). cbn [find user_email]. rewrite String.eqb_refl. reflexivity.
Qed.

(** X8: with hash functions where a hash verifies its own password,
    an accepted registration can be followed by a login: any spelling of
    the email that normalizes to the same string, with the same password,
    logs in the user just created, whose key is new. *)
Theorem register_then_login name email password salt d login email' next login' :
  (forall s p, check_password_hash (generate_password_hash s p) p = true) ->
  res_response (register_post generate_password_hash name email password salt d login)
  = Redirect ep_login ->
  normalize_email email' = normalize_email email ->
  let d1 := res_db (register_post generate_password_hash name email password salt d login) in
  let r := login_post check_password_hash email' password next d1 login' in
  exists u,
    users d1 = users d ++ [u]
    /\ user_name u = Text.strip name
    /\ user_email u = normalize_email email
    /\ ~ In (user_id u) (map user_id (users d))
    /\ res_login r = Some (user_id u)
    /\ res_db r = d1
    /\ res_flashes r = [("Logged in successfully.", "success")].
Proof.
  intros Hcheck Hok He d1 r.
  destruct (register_post_accepted name email password salt d login Hok)
    as (_ & _ & _ & Hfree & Hd1).
  fold d1 in Hd1. eexists. rewrite Hd1 at 1. cbn [users insert_user].
  split; [reflexivity|]. cbn [user_name user_email user_id].
  split; [reflexivity|]. split; [reflexivity|]. split.
  { unfold next_id. intro Hin.
    assert (H : forall l x, In x l -> x <= fold_right Nat.max 0 l).
    { induction l as [|y l IH]; intros x [].
      - subst. cbn [fold_right]. lia.
      - cbn [fold_right]. specialize (IH x H). lia. }
    apply H in Hin. lia. }
  unfold r, login_post. rewrite He, Hd1, (user_by_email_inserted _ _ _ _ _ Hfree).
  cbn [password_hash]. rewrite Hcheck. repeat split.
Qed.

(** X9: after an accepted registration, a second registration whose
    email normalizes to the same string creates nothing, whatever the name
    and password; with a name and a password given it answers that the
    email is already in use. *)
Theorem register_twice_rejected name email password salt d login
    name' email' password' salt' login' :
  res_response (register_post generate_password_hash name email password salt d login)
  = Redirect ep_login ->
  normalize_email email' = normalize_email email ->
  let d1 := res_db (register_post generate_password_hash name email password salt d login) in
  let r := register_post generate_password_hash name' email' password' salt' d1 login' in
  res_db r = d1
  /\ res_response r = Render (register_html (Some (Text.strip name', normalize_email email')))
  /\ (Text.strip name' <> EmptyString -> password' <> EmptyString ->
      res_flashes r = [("Email already in use.", "warning")]).
Proof.
  intros Hok He d1 r.
  destruct (register_post_accepted name email password salt d login Hok)
    as (_ & Hne & _ & Hfree & Hd1).
  fold d1 in Hd1.
  assert (Hfind : user_by_email (normalize_email email) d1
                  = Some (mkUser (next_id (map user_id (users d))) (Text.strip name)
                                 (normalize_email email)
                                 (generate_password_hash salt password) false)).
  { rewrite Hd1. apply user_by_email_inserted. exact Hfree. }
  unfold r, register_post. rewrite He, Hfind.
  destruct (Text.is_empty (Text.strip name')) eqn:E1.
  { cbn [orb res_db res_response res_flashes]. repeat split.
    intro H. apply is_empty_true in E1. contradiction. }
  apply is_empty_false in Hne. rewrite Hne.
  destruct (Text.is_empty password') eqn:E3; cbn [orb res_db res_response res_flashes].
  - repeat split. intros _ H. apply is_empty_true in E3. contradiction.
  - repeat split; intros; reflexivity.
Qed.

End AccountFlows.


(** ** Keys *)

Lemma split_csv_nonempty s : split_csv s <> [].
Proof.
  destruct s as [|c s]; cbn [split_csv]; [discriminate|].
  destruct (Ascii.eqb c ","); [discriminate|]. destruct (split_csv s); discriminate.
Qed.

Lemma next_id_above ids x : In x ids -> x < next_id ids.
Proof.
  unfold next_id. induction ids as [|y ids IH]; intros []; cbn [fold_right].
  - subst. lia.
  - specialize (IH H). lia.
Qed.

Lemma next_id_fresh_key ids : ~ In (next_id ids) ids.
Proof. intro H. apply next_id_above in H. lia. Qed.

Lemma NoDup_snoc {A : Type} (l : list A) (x : A) : NoDup l -> ~ In x l -> NoDup (l ++ [x]).
Proof.
  intros Hl Hx. apply NoDup_app; [exact Hl|repeat constructor; intros []|].
  intros a Ha [<-|[]]. exact (Hx Ha).
Qed.

Lemma NoDup_map_eq {A B : Type} (f : A -> B) (l : list A) a b :
  NoDup (map f l) -> In a l -> In b l -> f a = f b -> a = b.
Proof.
  induction l as [|x l IH]; cbn [map]; intros Hnd Ha Hb E; [destruct Ha|].
  inversion Hnd as [|? ? Hni Hnd']; subst.
  destruct Ha as [->|Ha], Hb as [->|Hb]; try reflexivity.
  - exfalso. apply Hni. rewrite E. apply in_map. exact Hb.
  - exfalso. apply Hni. rewrite <- E. apply in_map. exact Ha.
  - apply IH; assumption.
Qed.

Lemma seeded_seat_ids : map seat_id (seeded_seats 1 1) = seq 1 360.
Proof. vm_compute. reflexivity. Qed.

Lemma seeded_seats_unbooked : Forall (fun s => is_booked s = false) (seeded_seats 1 1).
Proof.
  apply Forall_forall. intros s Hs.
  assert (H : forallb (fun s => negb (is_booked s)) (seeded_seats 1 1) = true)
    by (vm_compute; reflexivity).
  apply negb_true_iff. exact (proj1 (forallb_forall _ _) H s Hs).
Qed.

Lemma seat_ids_of_keys (l : list Seat) :
  map seat_id l = map (fun key => fst (fst key)) (map seat_key l).
Proof. rewrite map_map. reflexivity. Qed.

(** In a store that passed the integrity check, seat keys are unique. *)
Lemma db_ok_seat_ids d : db_ok d -> NoDup (map seat_id (seats d)).
Proof.
  intro Hok. destruct (ok_catalog _ Hok) as [(_ & _ & Hs & _)|(_ & _ & Hs & _)].
  - rewrite Hs. constructor.
  - rewrite seat_ids_of_keys, Hs, <- seat_ids_of_keys, seeded_seat_ids. apply seq_NoDup.
Qed.

Lemma ForallOrdPairs_snoc {A : Type} (R : A -> A -> Prop) (l : list A) (x : A) :
  ForallOrdPairs R l -> Forall (fun y => R y x) l -> ForallOrdPairs R (l ++ [x]).
Proof.
  induction 1 as [|y l Hy Hl IH]; intro Hx; cbn [app].
  - repeat constructor.
  - inversion Hx as [|? ? Hyx Hx']; subst. constructor; [|apply IH; exact Hx'].
    apply Forall_app. split; [exact Hy|]. constructor; [exact Hyx|constructor].
Qed.

(** ** What a confirmed booking does to the seats *)

(** The seats fetched by a request in a store with unique seat keys are
    exactly the rows the assignments touch. *)
Lemma touched_iff_named sid sel d s :
  NoDup (map seat_id (seats d)) -> In s (seats d) ->
  existsb (fun m => seat_id s =? seat_id m) (seats_matching sid sel d) = names_seat sid sel s.
Proof.
  intros Hnd Hs. destruct (names_seat sid sel s) eqn:E.
  - apply existsb_exists. exists s. split; [|apply Nat.eqb_refl].
    apply seats_matching_In. split; assumption.
  - destruct (existsb _ _) eqn:Ex; [|reflexivity].
    apply existsb_exists in Ex. destruct Ex as (m & Hm & Hid).
    apply Nat.eqb_eq in Hid. apply seats_matching_In in Hm. destruct Hm as [Hm Hn].
    rewrite (NoDup_map_eq seat_id (seats d) s m Hnd Hs Hm Hid) in E. congruence.
Qed.

Lemma booked_db_seats_exact sid sel uid labels total now d :
  NoDup (map seat_id (seats d)) ->
  seats (booked_db (seats_matching sid sel d) uid sid labels total now d)
  = map (fun s => if names_seat sid sel s then mark_booked s else s) (seats d).
Proof.
  intro Hnd. cbn [seats booked_db]. apply map_ext_in. intros s Hs.
  rewrite (touched_iff_named sid sel d s Hnd Hs). reflexivity.
Qed.

(** Closes the side conditions of a growth statement. *)
Ltac grow_side :=
  first [ reflexivity
        | symmetry; apply app_nil_r
        | cbn [List.length]; lia
        | intros; right; reflexivity
        | intros; left; reflexivity
        | intros; reflexivity
        | let H := fresh in intro H; exfalso; apply H; reflexivity
        | let H := fresh in intros [H|H]; exfalso; apply H; reflexivity ].


(** ** The ledger invariant *)

Lemma book_tickets_result now k sel d login :
  res_db (book_tickets now k sel d login) = d
  \/ exists u t,
       current_user login d = Some u /\ get_showtime k d = Some t /\ sel <> []
       /\ unavailable (showtime_id t) sel d = false
       /\ res_db (book_tickets now k sel d login)
          = booked_db (seats_matching (showtime_id t) sel d) (user_id u) (showtime_id t)
              (Text.join "," sel)
              (PrimFloat.mul (ticket_price t) (float_of_nat (List.length sel))) now d.
Proof.
  destruct (current_user login d) as [u|] eqn:Hu.
  2:{ left. rewrite book_tickets_anonymous by exact Hu. reflexivity. }
  destruct (get_showtime k d) as [t|] eqn:Ht.
  2:{ left. unfold book_tickets. rewrite Hu, Ht. reflexivity. }
  destruct sel as [|x sel].
  { left. unfold book_tickets. rewrite Hu, Ht. reflexivity. }
  assert (Hsel : x :: sel <> []) by discriminate.
  rewrite (book_tickets_cases now k (x :: sel) d login u t Hu Ht Hsel).
  destruct (unavailable (showtime_id t) (x :: sel) d) eqn:Hav.
  - left. reflexivity.
  - right. exists u, t. repeat split; assumption || reflexivity.
Qed.

Lemma current_user_Some login d u :
  current_user login d = Some u -> In u (users d) /\ get_user (user_id u) d = Some u.
Proof.
  destruct login as [i|]; cbn [current_user]; [|discriminate].
  intro H. destruct (get_user_Some i d u H) as [Hin Hi]. split; [exact Hin|].
  rewrite Hi. exact H.
Qed.

(** The selection of a confirmed booking in a seeded store: distinct
    grid labels, read back from the CSV column as they were given. *)
Lemma confirmed_selection k sel d t :
  seeded_catalog d -> get_showtime k d = Some t -> sel <> [] ->
  unavailable (showtime_id t) sel d = false ->
  NoDup sel /\ incl sel grid_labels /\ split_csv (Text.join "," sel) = sel
  /\ (forall s, In s (seats d) -> names_seat (showtime_id t) sel s = true ->
                is_booked s = false)
  /\ (forall l, In l sel -> exists s, In s (seats d) /\ seat_showtime_id s = showtime_id t
                                      /\ seat_label s = l).
Proof.
  intros Hc Ht Hsel Hav.
  pose proof (seeded_catalog_grid d t Hc (proj1 (get_showtime_Some k d t Ht))) as Hg.
  destruct (matched_count (showtime_id t) sel d) as [_ Hm].
  { rewrite Hg. apply grid_labels_NoDup. }
  destruct (Hm (unavailable_false_len _ _ _ Hav)) as [Hnd Hincl].
  assert (Hgrid : incl sel grid_labels) by (rewrite <- Hg; exact Hincl).
  split; [exact Hnd|]. split; [exact Hgrid|]. split; [|split].
  - apply split_csv_join; [|exact Hsel]. apply Forall_forall. intros l Hl.
    apply (proj1 (Forall_forall _ _) grid_labels_no_comma). apply Hgrid. exact Hl.
  - intros s Hs Hn. unfold unavailable in Hav. apply orb_false_iff in Hav.
    destruct Hav as [_ Hb]. destruct (is_booked s) eqn:E; [|reflexivity].
    assert (existsb is_booked (seats_matching (showtime_id t) sel d) = true); [|congruence].
    apply existsb_exists. exists s. split; [|exact E].
    apply seats_matching_In. split; assumption.
  - intros l Hl. apply Hincl in Hl. apply in_map_iff in Hl. destruct Hl as (s & Hs & Hin).
    unfold seats_of_showtime in Hin. apply filter_In in Hin. destruct Hin as [Hin Hk].
    apply Nat.eqb_eq in Hk. exists s. repeat split; assumption.
Qed.

Lemma ledger_ok_book now k sel d login :
  db_ok d -> ledger_ok d -> ledger_ok (res_db (book_tickets now k sel d login)).
Proof.
  intros Hok Hl.
  destruct (book_tickets_result now k sel d login)
    as [->|(u & t & Hu & Ht & Hsel & Hav & ->)]; [exact Hl|].
  destruct (ok_catalog _ Hok) as [Hun|Hc].
  { rewrite (unseeded_no_showtime d k Hun) in Ht. discriminate. }
  destruct (confirmed_selection k sel d t Hc Ht Hsel Hav) as (Hnd & Hgrid & Hsplit & Hfree & Hex).
  pose proof (db_ok_seat_ids d Hok) as Hids.
  destruct Hl as [L1 L2 L3 L4 L5 L6].
  set (new := mkBooking (next_id (map booking_id (bookings d))) (user_id u) (showtime_id t)
                (Text.join "," sel)
                (PrimFloat.mul (ticket_price t) (float_of_nat (List.length sel))) now).
  assert (Hnew_labels : booking_labels new = sel) by exact Hsplit.
  assert (Hseats : forall s', In s' (seats (booked_db (seats_matching (showtime_id t) sel d)
                                (user_id u) (showtime_id t) (Text.join "," sel)
                                (PrimFloat.mul (ticket_price t)
                                   (float_of_nat (List.length sel))) now d)) ->
            exists s, In s (seats d) /\ seat_showtime_id s' = seat_showtime_id s
                      /\ seat_label s' = seat_label s
                      /\ is_booked s' = (names_seat (showtime_id t) sel s || is_booked s)).
  { intros s' Hs'. rewrite booked_db_seats_exact in Hs' by exact Hids.
    apply in_map_iff in Hs'. destruct Hs' as (s & <- & Hs). exists s.
    destruct (names_seat (showtime_id t) sel s); repeat split; assumption. }
  assert (Hnames : forall s, seat_showtime_id s = showtime_id t ->
            (In (seat_label s) sel <-> names_seat (showtime_id t) sel s = true)).
  { intros s Hk. unfold names_seat. rewrite Hk, Nat.eqb_refl. cbn [andb].
    symmetry. apply label_in_In. }
  constructor; cbn [users bookings booked_db]; fold new.
  - exact L1.
  - rewrite map_app. apply NoDup_snoc; [exact L2|apply next_id_fresh_key].
  - apply Forall_app. split; [exact L3|]. constructor; [|constructor].
    cbn [bk_user_id bk_showtime_id total_price new]. split.
    + change (get_user (user_id u) d <> None).
      rewrite (proj2 (current_user_Some login d u Hu)). discriminate.
    + exists t. split.
      * change (get_showtime (showtime_id t) d = Some t).
        rewrite (proj2 (get_showtime_Some k d t Ht)). exact Ht.
      * fold new. rewrite Hnew_labels. reflexivity.
  - intros b s' Hb Hs' [Hk Hlab]. destruct (Hseats s' Hs') as (s & Hs & E1 & E2 & E3).
    rewrite E3. apply in_app_or in Hb. destruct Hb as [Hb|[<-|[]]].
    + rewrite (L4 b s Hb Hs); [apply orb_true_r|]. split; [rewrite <- E1|rewrite <- E2]; assumption.
    + rewrite Hnew_labels, E2 in Hlab. cbn [bk_showtime_id new] in Hk. rewrite E1 in Hk.
      rewrite (proj1 (Hnames s (eq_sym Hk)) Hlab). reflexivity.
  - intros s' Hs' Hb. destruct (Hseats s' Hs') as (s & Hs & E1 & E2 & E3).
    rewrite E3 in Hb. apply orb_true_iff in Hb. destruct Hb as [Hn|Hb].
    + exists new. split; [apply in_or_app; right; left; reflexivity|].
      unfold names_seat in Hn. apply andb_true_iff in Hn. destruct Hn as [Hk Hlab].
      apply Nat.eqb_eq in Hk. apply label_in_In in Hlab.
      split; [cbn [bk_showtime_id new]; congruence|].
      rewrite Hnew_labels, E2. exact Hlab.
    + destruct (L5 s Hs Hb) as (b & Hin & Hk & Hlab). exists b.
      split; [apply in_or_app; left; exact Hin|].
      split; [rewrite E1|rewrite E2]; assumption.
  - apply ForallOrdPairs_snoc; [exact L6|]. apply Forall_forall.
    intros b Hb Hk l Hl Hl'. rewrite Hnew_labels in Hl'. cbn [bk_showtime_id new] in Hk.
    destruct (Hex l Hl') as (s & Hs & Hsk & Hsl).
    assert (Hbooked : is_booked s = true).
    { apply (L4 b s Hb Hs). split; [congruence|rewrite Hsl; exact Hl]. }
    rewrite (Hfree s Hs) in Hbooked; [discriminate|].
    apply (Hnames s Hsk). rewrite Hsl. exact Hl'.
Qed.

Lemma ledger_ok_empty : ledger_ok empty_db.
Proof. constructor; cbn; try constructor; intros; contradiction. Qed.


Section Ledger.

Variable generate_password_hash : string -> string -> string.
Variable check_password_hash : string -> string -> bool.

Lemma get_user_inserted name email hash admin d i :
  get_user i d <> None -> get_user i (insert_user name email hash admin d) <> None.
Proof.
  unfold get_user. cbn [users insert_user]. intro H.
  destruct (find (fun u => user_id u =? i) (users d)) as [u|] eqn:E; [|contradiction].
  rewrite (find_app_Some _ _ _ u E). discriminate.
Qed.

Lemma ledger_ok_insert_user name email hash admin d :
  ledger_ok d -> ledger_ok (insert_user name email hash admin d).
Proof.
  intros [L1 L2 L3 L4 L5 L6].
  constructor; cbn [users bookings seats insert_user]; try assumption.
  - rewrite map_app. apply NoDup_snoc; [exact L1|apply next_id_fresh_key].
  - eapply Forall_impl; [|exact L3]. intros b [Hu Ht]. split; [|exact Ht].
    apply get_user_inserted. exact Hu.
Qed.

Lemma ledger_ok_register name email password salt d login :
  ledger_ok d ->
  ledger_ok (res_db (register_post generate_password_hash name email password salt d login)).
Proof.
  intro Hl.
  destruct (register_post_db generate_password_hash name email password salt d login)
    as [->|(_ & _ & _ & _ & ->)]; [exact Hl|].
  apply ledger_ok_insert_user. exact Hl.
Qed.

Lemma ledger_ok_seed clock salt d :
  db_ok d -> ledger_ok d ->
  ledger_ok (seed_demo_data generate_password_hash clock salt d).
Proof.
  intros Hok Hl. destruct (movies d) as [|m ms] eqn:E.
  2:{ rewrite seed_noop; [exact Hl|rewrite E; discriminate]. }
  destruct (ok_catalog _ Hok) as [Hun|(Hm & _)].
  2:{ rewrite E in Hm. discriminate. }
  destruct (seed_unseeded generate_password_hash clock salt d Hun) as (_ & _ & Hs & Hb & Hu).
  constructor; rewrite ?Hb, ?Hs, ?Hu.
  - unfold seed_demo_user. destruct (user_by_email _ d); [apply (led_user_ids _ Hl)|].
    cbn [users insert_user]. rewrite map_app.
    apply NoDup_snoc; [apply (led_user_ids _ Hl)|apply next_id_fresh_key].
  - constructor.
  - constructor.
  - intros b s [].
  - intros s Hin Hbk.
    rewrite (proj1 (Forall_forall _ _) seeded_seats_unbooked s Hin) in Hbk. discriminate.
  - constructor.
Qed.

(** Every reachable store keeps its ledger straight. *)
Lemma reachable_ledger d :
  reachable generate_password_hash check_password_hash d -> ledger_ok d.
Proof.
  induction 1 as [|op d login Hr IH]; [exact ledger_ok_empty|].
  pose proof (reachable_ok generate_password_hash check_password_hash d Hr) as Hok.
  destruct op; cbn [run fst].
  - exact IH.
  - rewrite movie_detail_db. exact IH.
  - rewrite showtime_detail_db. exact IH.
  - apply ledger_ok_book; assumption.
  - rewrite my_bookings_db. exact IH.
  - exact IH.
  - rewrite login_post_db. exact IH.
  - exact IH.
  - apply ledger_ok_register. exact IH.
  - rewrite logout_db. exact IH.
  - apply ledger_ok_seed; assumption.
  - apply ledger_ok_seed; [exact db_ok_empty|exact ledger_ok_empty].
Qed.

(** X6: in a reachable store a confirmed booking books exactly the
    seats it names: every seat keeps its key, showtime and label, a named
    seat was unbooked and is now booked, every other seat keeps its flag,
    and the named seats are as many as the requested labels. *)
Theorem book_tickets_books_exactly_the_named_seats now k sel d login :
  reachable generate_password_hash check_password_hash d ->
  res_response (book_tickets now k sel d login) = Redirect ep_my_bookings ->
  exists t,
    get_showtime k d = Some t
    /\ Forall2 (fun s s' =>
                  seat_key s' = seat_key s
                  /\ is_booked s' = (names_seat (showtime_id t) sel s || is_booked s)
                  /\ (names_seat (showtime_id t) sel s = true -> is_booked s = false))
               (seats d) (seats (res_db (book_tickets now k sel d login)))
    /\ List.length (filter (names_seat (showtime_id t) sel) (seats d)) = List.length sel.
Proof.
  intros Hr Hc. apply reachable_ok in Hr.
  destruct (book_tickets_confirmed now k sel d login Hc) as (u & t & Hu & Ht & Hsel & Hav).
  exists t. split; [exact Ht|].
  rewrite (book_tickets_cases now k sel d login u t Hu Ht Hsel), Hav. cbn [res_db].
  destruct (ok_catalog _ Hr) as [Hun|Hcat].
  { rewrite (unseeded_no_showtime d k Hun) in Ht. discriminate. }
  destruct (confirmed_selection k sel d t Hcat Ht Hsel Hav) as (_ & _ & _ & Hfree & _).
  split.
  - rewrite booked_db_seats_exact by (apply db_ok_seat_ids; exact Hr).
    apply Forall2_map_self. intros s Hs.
    destruct (names_seat (showtime_id t) sel s) eqn:E.
    + repeat split. intros _. apply Hfree; assumption.
    + repeat split. discriminate.
  - apply (unavailable_false_len _ _ _ Hav).
Qed.

(** X10: as long as requests are handled one after another, each
    booking running its check and its commit before the next request
    starts (the stores [reachable] describes; the code has no lock for
    requests that overlap), a seat is booked exactly when some booking of
    its showtime records its label, and two different bookings of one
    showtime never share a label. *)
Theorem no_seat_is_sold_twice d :
  reachable generate_password_hash check_password_hash d ->
  (forall s, In s (seats d) ->
     (is_booked s = true <-> exists b, In b (bookings d) /\ booking_names b s))
  /\ (forall b1 b2, In b1 (bookings d) -> In b2 (bookings d) ->
        booking_id b1 <> booking_id b2 ->
        bk_showtime_id b1 = bk_showtime_id b2 ->
        forall l, In l (booking_labels b1) -> ~ In l (booking_labels b2)).
Proof.
  intro Hr. apply reachable_ledger in Hr. destruct Hr as [_ _ _ L4 L5 L6]. split.
  - intros s Hs. split; [apply L5; exact Hs|].
    intros (b & Hb & Hn). exact (L4 b s Hb Hs Hn).
  - intros b1 b2 H1 H2 Hid Hk l Hl1 Hl2.
    destruct (ForallOrdPairs_In L6 b1 b2 H1 H2) as [E|[H|H]].
    + subst. apply Hid. reflexivity.
    + exact (H Hk l Hl1 Hl2).
    + exact (H (eq_sym Hk) l Hl2 Hl1).
Qed.

(** X11: in every reachable store each booking refers to a stored
    user and a stored showtime, its total is the ticket price of that
    showtime times the number of labels it records, and those labels are
    distinct labels of seats of that showtime, at least one. *)
Theorem bookings_refer_to_stored_rows d b :
  reachable generate_password_hash check_password_hash d ->
  In b (bookings d) ->
  exists u t,
    get_user (bk_user_id b) d = Some u
    /\ get_showtime (bk_showtime_id b) d = Some t
    /\ total_price b
       = PrimFloat.mul (ticket_price t) (float_of_nat (List.length (booking_labels b)))
    /\ booking_labels b <> []
    /\ NoDup (booking_labels b)
    /\ incl (booking_labels b) (map seat_label (seats_of_showtime (showtime_id t) d)).
Proof.
  intros Hr Hb.
  pose proof (reachable_ok _ _ d Hr) as Hok. apply reachable_ledger in Hr.
  destruct (proj1 (Forall_forall _ _) (led_refs _ Hr) b Hb) as (Hu & t & Ht & Hp).
  destruct (proj1 (Forall_forall _ _) (ok_bookings _ Hok) b Hb) as (Hnd & Hincl).
  destruct (get_user (bk_user_id b) d) as [u|]; [|contradiction].
  exists u, t. split; [reflexivity|]. split; [exact Ht|]. split; [exact Hp|].
  split; [|split; [exact Hnd|]].
  - apply split_csv_nonempty.
  - destruct (ok_catalog _ Hok) as [Hun|Hc].
    { rewrite (unseeded_no_showtime d _ Hun) in Ht. discriminate. }
    rewrite (seeded_catalog_grid d t Hc (proj1 (get_showtime_Some _ d t Ht))). exact Hincl.
Qed.

Lemma seeded_movie_ids : map movie_id (seeded_movies 1) = [1; 2; 3].
Proof. reflexivity. Qed.

(** X12: in every reachable store the keys of each table are pairwise
    distinct, no two users share an email, and every stored email is in
    normalized form. *)
Theorem keys_and_emails_are_unique d :
  reachable generate_password_hash check_password_hash d ->
  NoDup (map user_id (users d))
  /\ NoDup (map user_email (users d))
  /\ NoDup (map movie_id (movies d))
  /\ NoDup (map showtime_id (showtimes d))
  /\ NoDup (map seat_id (seats d))
  /\ NoDup (map booking_id (bookings d))
  /\ (forall u, In u (users d) -> normalize_email (user_email u) = user_email u).
Proof.
  intro Hr. pose proof (reachable_ok _ _ d Hr) as Hok. apply reachable_ledger in Hr.
  split; [apply (led_user_ids _ Hr)|]. split; [apply (ok_emails_unique _ Hok)|].
  assert (Hcat : NoDup (map movie_id (movies d)) /\ NoDup (map showtime_id (showtimes d))).
  { destruct (ok_catalog _ Hok) as [(-> & -> & _)|(-> & [c ->] & _)].
    - split; constructor.
    - rewrite seeded_movie_ids, seeded_showtime_ids. split; [|apply seq_NoDup].
      apply (seq_NoDup 3 1). }
  split; [apply Hcat|]. split; [apply Hcat|]. split; [apply db_ok_seat_ids; exact Hok|].
  split; [apply (led_booking_ids _ Hr)|]. apply Forall_forall. apply (ok_emails_normal _ Hok).
Qed.

(** X13: in a reachable store a login that does not render the login
    form again has found a stored user with the normalized email and a
    verifying password, and the session it leaves resolves to exactly that
    user. *)
Theorem login_binds_session_to_user email password next d login :
  reachable generate_password_hash check_password_hash d ->
  let r := login_post check_password_hash email password next d login in
  res_response r <> Render login_html ->
  exists u,
    In u (users d)
    /\ user_email u = normalize_email email
    /\ check_password_hash (password_hash u) password = true
    /\ res_login r = Some (user_id u)
    /\ current_user (res_login r) (res_db r) = Some u.
Proof.
  intros Hr r Hne. apply reachable_ledger in Hr. unfold r in *. unfold login_post in *.
  destruct (user_by_email (normalize_email email) d) as [u|] eqn:E.
  2:{ exfalso. apply Hne. reflexivity. }
  destruct (check_password_hash (password_hash u) password) eqn:Hp.
  2:{ exfalso. apply Hne. reflexivity. }
  cbn [res_login res_db current_user].
  apply user_by_email_Some in E. destruct E as [Hin He].
  exists u. repeat split; try assumption.
  unfold get_user. clear Hne.
  pose proof (led_user_ids _ Hr) as Hnd. revert Hnd Hin.
  induction (users d) as [|v us IH]; cbn [map find In]; intros Hnd Hin; [destruct Hin|].
  inversion Hnd as [|? ? Hni Hnd']; subst. destruct Hin as [->|Hin].
  - rewrite Nat.eqb_refl. reflexivity.
  - destruct (user_id v =? user_id u) eqn:Ev; [|apply IH; assumption].
    apply Nat.eqb_eq in Ev. exfalso. apply Hni. rewrite Ev. apply in_map. exact Hin.
Qed.

(** X7: no request handler and no seeding run deletes or rewrites a
    user, movie, showtime or booking: each table keeps its rows as a
    prefix.  At most one user and one booking are added; users come only
    from registration or seeding, movies and showtimes only from seeding,
    bookings only from booking.  [init-db] starts over without bookings. *)
Theorem tables_only_grow op d login :
  let d' := fst (run generate_password_hash check_password_hash op d login) in
  match op with
  | OpInitDb _ _ => bookings d' = []
  | _ =>
      exists us ms ts bs,
        users d' = users d ++ us /\ movies d' = movies d ++ ms
        /\ showtimes d' = showtimes d ++ ts /\ bookings d' = bookings d ++ bs
        /\ List.length us <= 1 /\ List.length bs <= 1
        /\ (us <> [] -> is_register op = true \/ is_seed op = true)
        /\ (ms <> [] \/ ts <> [] -> is_seed op = true)
        /\ (bs <> [] -> is_booking op = true)
  end.
Proof.
  intro d'. unfold d'.
  assert (Hsame : forall op' d1, d1 = d ->
            exists us ms ts bs,
              users d1 = users d ++ us /\ movies d1 = movies d ++ ms
              /\ showtimes d1 = showtimes d ++ ts /\ bookings d1 = bookings d ++ bs
              /\ List.length us <= 1 /\ List.length bs <= 1
              /\ (us <> [] -> is_register op' = true \/ is_seed op' = true)
              /\ (ms <> [] \/ ts <> [] -> is_seed op' = true)
              /\ (bs <> [] -> is_booking op' = true)).
  { intros op' d1 ->. exists [], [], [], [].
    repeat (split; [grow_side|]). grow_side. }
  destruct op; cbn [run fst].
  - apply Hsame. reflexivity.
  - apply Hsame. apply movie_detail_db.
  - apply Hsame. apply showtime_detail_db.
  - destruct (book_tickets_db now k selected_seats d login) as [E|(u & t & _ & _ & _ & E)].
    + apply Hsame. exact E.
    + rewrite E. cbn [users movies showtimes bookings booked_db].
      eexists [], [], [], [_].
      repeat (split; [grow_side|]). grow_side.
  - apply Hsame. apply my_bookings_db.
  - apply Hsame. reflexivity.
  - apply Hsame. apply login_post_db.
  - apply Hsame. reflexivity.
  - destruct (register_post_db generate_password_hash name email password salt d login)
      as [E|(_ & _ & _ & _ & E)].
    + apply Hsame. exact E.
    + rewrite E. cbn [users movies showtimes bookings insert_user].
      eexists [_], [], [], [].
      repeat (split; [grow_side|]). grow_side.
  - apply Hsame. apply logout_db.
  - assert (Hm : movies d = [] \/ movies d <> [])
      by (destruct (movies d); [left; reflexivity|right; discriminate]).
    destruct Hm as [E|E].
    + rewrite seed_runs by exact E. rewrite seed_movies_eq.
      unfold seed_demo_user, user_by_email. cbn [users].
      destruct (find _ (users d)); cbn [users movies showtimes bookings insert_user].
      * eexists [], _, _, [].
        repeat (split; [grow_side|]). grow_side.
      * eexists [_], _, _, [].
        repeat (split; [grow_side|]). grow_side.
    + rewrite seed_noop by exact E. apply Hsame. reflexivity.
  - unfold init_db_command.
    destruct (seed_unseeded generate_password_hash clock salt empty_db) as (_ & _ & _ & H & _);
      [repeat split|exact H].
Qed.

End Ledger.


(** X16: logout of a logged-in user clears the session and leaves the
    store alone; after it the protected routes redirect to the login page. *)
Theorem logout_ends_the_session now k sel d login u :
  current_user login d = Some u ->
  logout d login
  = mkResult d None [("Logged out successfully.", "success")] (Redirect ep_home)
  /\ book_tickets now k sel (res_db (logout d login)) (res_login (logout d login))
     = unauthorized d None
  /\ my_bookings (res_db (logout d login)) (res_login (logout d login)) = unauthorized d None
  /\ logout (res_db (logout d login)) (res_login (logout d login)) = unauthorized d None.
Proof.
  intro Hu.
  assert (E : logout d login
              = mkResult d None [("Logged out successfully.", "success")] (Redirect ep_home)).
  { unfold logout. rewrite Hu. reflexivity. }
  rewrite E. cbn [res_db res_login]. repeat split.
Qed.

(** X17: normalizing an email twice is normalizing it once; the result
    has no surrounding whitespace left to strip and no capital left to
    lower, and a space around the input makes no difference. *)
Theorem normalize_email_is_canonical e :
  normalize_email (normalize_email e) = normalize_email e
  /\ Text.strip (normalize_email e) = normalize_email e
  /\ Text.lower (normalize_email e) = normalize_email e
  /\ normalize_email (" " ++ e ++ " ")%string = normalize_email e.
Proof.
  split; [apply normalize_email_idem|]. split; [|split].
  - unfold normalize_email. rewrite strip_lower, strip_idem. reflexivity.
  - unfold normalize_email. apply lower_idem.
  - unfold normalize_email. f_equal. unfold Text.strip.
    change (Text.lstrip (" " ++ e ++ " ")%string) with (Text.lstrip (e ++ " ")%string).
    assert (Hr : forall s, Text.rstrip (s ++ " ")%string = Text.rstrip s).
    { induction s as [|c s IH]; [reflexivity|].
      cbn [String.append Text.rstrip]. rewrite IH. reflexivity. }
    assert (Hl : forall s, Text.rstrip (Text.lstrip (s ++ " ")%string)
                           = Text.rstrip (Text.lstrip s)).
    { induction s as [|c s IH]; [reflexivity|].
      cbn [String.append Text.lstrip]. destruct (Text.is_space c); [exact IH|].
      apply (Hr (String c s)). }
    apply Hl.
Qed.


(** ** More worked examples on the demo store *)

Lemma toy_check_hash salt password :
  Demo.toy_check (Demo.toy_hash salt password) password = true.
Proof.
  unfold Demo.toy_check, Demo.toy_hash.
  induction password as [|c p IH]; cbn [String.append String.prefix].
  - destruct salt; reflexivity.
  - destruct (ascii_dec c c) as [_|N]; [exact IH|contradiction].
Qed.

Lemma create_seats_for_showtime_distinct_labels_witness :
  exists added,
    seats (create_seats_for_showtime 1 5 8 empty_db) = seats empty_db ++ added
    /\ NoDup (map seat_label added).
Proof.
  destruct (create_seats_for_showtime_distinct_labels 1 5 8 empty_db) as (added & H1 & H2 & _).
  - lia.
  - exists added. split; assumption.
Defined.

Lemma my_bookings_lists_own_bookings_witness :
  exists shown,
    my_bookings Demo.after_booking (Some 1)
    = mkResult Demo.after_booking (Some 1) [] (Render (bookings_html shown))
    /\ Permutation shown (filter (fun b => bk_user_id b =? 1) (bookings Demo.after_booking)).
Proof.
  destruct (my_bookings_lists_own_bookings Demo.after_booking (Some 1)
              (mkUser 1 "Demo User" "demo@example.com" "password$s" true))
    as (shown & H1 & H2 & _).
  - vm_compute. reflexivity.
  - exists shown. split; [exact H1|exact H2].
Defined.

Lemma protected_routes_need_a_stored_user_witness :
  book_tickets 80%Z 1 ["B1"] Demo.seeded (Some 7) = unauthorized Demo.seeded (Some 7).
Proof.
  refine (proj1 (protected_routes_need_a_stored_user 80%Z 1 ["B1"] Demo.seeded (Some 7) _)).
  right. exists 7. split; [reflexivity|]. vm_compute. intros [H|[]]. discriminate.
Defined.

Lemma book_tickets_books_exactly_the_named_seats_witness :
  exists t,
    get_showtime 1 Demo.seeded = Some t
    /\ List.length (filter (names_seat (showtime_id t) ["A1"; "A2"]) (seats Demo.seeded)) = 2.
Proof.
  destruct (book_tickets_books_exactly_the_named_seats Demo.toy_hash Demo.toy_check
              77%Z 1 ["A1"; "A2"] Demo.seeded (Some 1)) as (t & H1 & _ & H3).
  - unfold Demo.seeded. apply reach_run, reach_fresh.
  - vm_compute. reflexivity.
  - exists t. split; [exact H1|exact H3].
Defined.

Lemma register_then_login_witness :
  exists u,
    user_email u = "ann@example.com"
    /\ res_login (login_post Demo.toy_check "ANN@example.com " "secret" None
                    (res_db (register_post Demo.toy_hash " Ann " "Ann@Example.com" "secret"
                               "pepper" Demo.seeded None)) None)
       = Some (user_id u).
Proof.
  destruct (register_then_login Demo.toy_hash Demo.toy_check
              " Ann " "Ann@Example.com" "secret" "pepper" Demo.seeded None
              "ANN@example.com " None None toy_check_hash)
    as (u & _ & _ & H3 & _ & H5 & _).
  - vm_compute. reflexivity.
  - vm_compute. reflexivity.
  - exists u. split; [exact H3|exact H5].
Defined.

Lemma register_twice_rejected_witness :
  res_flashes (register_post Demo.toy_hash "Bob" " ANN@example.com" "other" "salt"
                 (res_db (register_post Demo.toy_hash " Ann " "Ann@Example.com" "secret"
                            "pepper" Demo.seeded None)) None)
  = [("Email already in use.", "warning")].
Proof.
  refine (proj2 (proj2 (register_twice_rejected Demo.toy_hash
                          " Ann " "Ann@Example.com" "secret" "pepper" Demo.seeded None
                          "Bob" " ANN@example.com" "other" "salt" None _ _)) _ _).
  - vm_compute. reflexivity.
  - vm_compute. reflexivity.
  - vm_compute. discriminate.
  - discriminate.
Defined.

Lemma no_seat_is_sold_twice_witness :
  exists b, In b (bookings Demo.after_booking) /\ booking_names b (mkSeat 1 1 "A1" true).
Proof.
  refine (proj1 (proj1 (no_seat_is_sold_twice Demo.toy_hash Demo.toy_check
                          Demo.after_booking _) (mkSeat 1 1 "A1" true) _) _).
  - unfold Demo.after_booking, Demo.seeded. apply reach_run, reach_run, reach_fresh.
  - vm_compute. left. reflexivity.
  - reflexivity.
Defined.

Lemma bookings_refer_to_stored_rows_witness :
  exists u t,
    get_user 1 Demo.after_booking = Some u
    /\ get_showtime 1 Demo.after_booking = Some t
    /\ 20%float = PrimFloat.mul (ticket_price t) (float_of_nat 2).
Proof.
  destruct (bookings_refer_to_stored_rows Demo.toy_hash Demo.toy_check Demo.after_booking
              (mkBooking 1 1 1 "A1,A2" 20%float 77%Z))
    as (u & t & H1 & H2 & H3 & _).
  - unfold Demo.after_booking, Demo.seeded. apply reach_run, reach_run, reach_fresh.
  - vm_compute. left. reflexivity.
  - exists u, t. split; [exact H1|]. split; [exact H2|exact H3].
Defined.

Lemma keys_and_emails_are_unique_witness :
  NoDup (map user_id (users Demo.after_booking))
  /\ NoDup (map user_email (users Demo.after_booking)).
Proof.
  destruct (keys_and_emails_are_unique Demo.toy_hash Demo.toy_check Demo.after_booking)
    as (H1 & H2 & _).
  - unfold Demo.after_booking, Demo.seeded. apply reach_run, reach_run, reach_fresh.
  - split; [exact H1|exact H2].
Defined.

Lemma login_binds_session_to_user_witness :
  exists u,
    user_email u = "demo@example.com"
    /\ current_user (res_login (login_post Demo.toy_check "Demo@Example.com" "password"
                                  None Demo.seeded None))
                    (res_db (login_post Demo.toy_check "Demo@Example.com" "password"
                               None Demo.seeded None))
       = Some u.
Proof.
  destruct (login_binds_session_to_user Demo.toy_hash Demo.toy_check
              "Demo@Example.com" "password" None Demo.seeded None)
    as (u & _ & H2 & _ & _ & H5).
  - unfold Demo.seeded. apply reach_run, reach_fresh.
  - vm_compute. discriminate.
  - exists u. split; [exact H2|exact H5].
Defined.

Lemma booking_appears_in_history_witness :
  exists b shown,
    seat_labels b = "A1,A2"
    /\ my_bookings Demo.after_booking (Some 1)
       = mkResult Demo.after_booking (Some 1) [] (Render (bookings_html shown))
    /\ In b shown.
Proof.
  destruct (booking_appears_in_history 77%Z 1 ["A1"; "A2"] Demo.seeded (Some 1))
    as (b & shown & _ & H2 & _ & H4 & H5).
  - vm_compute. reflexivity.
  - exists b, shown. split; [exact H2|]. split; [exact H4|exact H5].
Defined.

Lemma logout_ends_the_session_witness :
  my_bookings (res_db (logout Demo.seeded (Some 1))) (res_login (logout Demo.seeded (Some 1)))
  = unauthorized Demo.seeded None.
Proof.
  refine (proj1 (proj2 (proj2 (logout_ends_the_session 81%Z 1 ["A1"] Demo.seeded (Some 1)
                                  (mkUser 1 "Demo User" "demo@example.com" "password$s" true)
                                  _)))).
  vm_compute. reflexivity.
Defined.

Lemma create_seats_for_showtime_appends_witness :
  exists added,
    seats (create_seats_for_showtime 1 5 8 empty_db) = seats empty_db ++ added
    /\ List.length added = 5 * 8.
Proof.
  destruct (create_seats_for_showtime_appends 1 5 8 empty_db) as (added & H1 & _ & _ & _ & _ & H6 & _).
  - lia.
  - exists added. split; [exact H1|exact H6].
Defined.

Lemma detail_pages_not_found_witness :
  res_response (movie_detail 7 Demo.seeded None) = NotFound.
Proof.
  refine (proj2 (proj1 (detail_pages_not_found 7 Demo.seeded None _)) _).
  - reflexivity.
  - vm_compute. intros [H|[H|[H|[]]]]; discriminate.
Defined.
